(** * tlsguard: the packet-forwarding engine

    A shallow embedding of the forwarding engine of tlsguard
    (connection_pool.go, server.go, the client engine and main.go) and the
    properties of its framing, pool, queues and shutdown sequence.

    Conventions.  Go's [int] and [uint16] are modelled on [Z] with the
    conversions written out; a [[]byte] is a [list byte]; a slice expression
    that Go would refuse at run time yields [None]; everything outside the
    repository that a goroutine observes (what a TUN read returns, what
    arrives on a TLS stream, whether a write succeeds, which index the
    random generator draws) is an explicit argument of the function that
    models the goroutine's loop body. *)

From Stdlib Require Import Strings.String.
From Stdlib Require Import ZArith List Lia Bool.
From Stdlib Require Strings.Byte.
From Stdlib Require Import Init.Byte.
Import ListNotations.
Local Open Scope Z_scope.

Set Implicit Arguments.

(* ------------------------------------------------------------------ *)
(** * Byte slices *)

Module Slice.

Definition len {A} (l : list A) : Z := Z.of_nat (length l).

(** [make([]byte, n)] *)
Definition make (n : Z) : list byte := repeat x00 (Z.to_nat n).

(** [data[:hi]]; Go panics unless [0 <= hi <= cap(data)].  Every buffer of
    the engine is used with its capacity equal to its length. *)
Definition upto (data : list byte) (hi : Z) : option (list byte) :=
  if (0 <=? hi) && (hi <=? len data)
  then Some (firstn (Z.to_nat hi) data) else None.

(** [data[lo:]] *)
Definition from (data : list byte) (lo : Z) : option (list byte) :=
  if (0 <=? lo) && (lo <=? len data)
  then Some (skipn (Z.to_nat lo) data) else None.

(** The effect on [data] of a callee that fills the window [data[off:]]
    with [src]: it cannot write past the end of the window. *)
Definition fill (data : list byte) (off : Z) (src : list byte) : list byte :=
  let o := Z.to_nat off in
  let w := firstn (length data - o) src in
  firstn o data ++ w ++ skipn (o + length w) data.

End Slice.

(* ------------------------------------------------------------------ *)
(** * encoding/binary, big endian *)

Module BigEndian.

(** the conversion [uint16(x)] of an [int] *)
Definition uint16 (x : Z) : Z := x mod 65536.

(** the conversion [byte(x)] *)
Definition byte_of (x : Z) : byte :=
  match Byte.of_N (Z.to_N (x mod 256)) with
  | Some b => b
  | None => x00
  end.

Definition byte_val (b : byte) : Z := Z.of_N (Byte.to_N b).

(** [PutUint16(b, v)]: [b[0] = byte(v >> 8); b[1] = byte(v)];
    the two bytes stored. *)
Definition PutUint16 (v : Z) : list byte :=
  [byte_of (Z.shiftr v 8); byte_of v].

(** [Uint16(b)]: [uint16(b[1]) | uint16(b[0])<<8]; needs [len(b) >= 2]. *)
Definition Uint16 (b : list byte) : option Z :=
  match b with
  | b0 :: b1 :: _ => Some (Z.lor (byte_val b1) (Z.shiftl (byte_val b0) 8))
  | _ => None
  end.

End BigEndian.

(* ------------------------------------------------------------------ *)
(** * Byte streams: the read half of a [net.Conn] *)

Inductive error : Type :=
| EOF                (* the peer closed the stream *)
| ErrUnexpectedEOF   (* io.ReadFull: the stream ended inside the buffer *)
| ErrDeadline        (* the read deadline passed *)
| ErrClosed.         (* the connection was closed locally or reset *)

(** What a connection will deliver: the segments in which the bytes arrive,
    each returned by one [Read] (or by several when the caller's buffer is
    shorter), and the error every [Read] returns once they are used up. *)
Record Stream : Type := mkStream {
  segs : list (list byte);
  fault : error
}.

Record ReadResult : Type := mkRead {
  got : list byte;        (* the bytes stored in the buffer, from offset 0 *)
  err : option error;
  rest : Stream
}.

Module io.

(** The loop of [io.ReadAtLeast(r, buf, len(buf))]:
    [for n < min && err == nil { nn, err = r.Read(buf[n:]); n += nn }].
    Each recursive call is one [r.Read]; [want] is [min - n]. *)
Fixpoint read_loop (ss : list (list byte)) (f : error) (want : nat)
         (acc : list byte) : list byte * option error * list (list byte) :=
  match want with
  | O => (acc, None, ss)
  | S _ =>
    match ss with
    | [] => (acc, Some f, [])
    | s :: ss' =>
      if (length s <=? want)%nat
      then read_loop ss' f (want - length s) (acc ++ s)
      else (acc ++ firstn want s, None, skipn want s :: ss')
    end
  end.

(** [io.ReadFull(r, buf)] with [len(buf) = n]: after the loop,
    [if n >= min { err = nil } else if n > 0 && err == EOF
       { err = ErrUnexpectedEOF }]. *)
Definition ReadFull (r : Stream) (n : Z) : ReadResult :=
  match read_loop (segs r) (fault r) (Z.to_nat n) [] with
  | (bs, None, ss) => mkRead bs None (mkStream ss (fault r))
  | (bs, Some e, ss) =>
    let e' := match bs, e with
              | _ :: _, EOF => ErrUnexpectedEOF
              | _, _ => e
              end in
    mkRead bs (Some e') (mkStream ss (fault r))
  end.

End io.

(** All the bytes a stream delivers before it fails. *)
Definition bytes_of (r : Stream) : list byte := concat (segs r).

(* ------------------------------------------------------------------ *)
(** * The framing codec *)

Definition bufSize : Z := 0xFFFF.

(** The outcome of decoding one frame from a carrier, as the read loops of
    [Server.handleConn] and [Client.handleRemotePacket] do it. *)
Inductive Decoded : Type :=
| DecodeErr (e : error)          (* a ReadFull failed: break *)
| DecodeZero                     (* size <= 0: break *)
| DecodePanic                    (* a slice expression out of range *)
| DecodeFrame (payload : list byte).

(** [data := make([]byte, 0xFFFF)
     if _, err := io.ReadFull(conn, data[:2]); err != nil { break }
     size := binary.BigEndian.Uint16(data[:2])
     if size <= 0 { break }
     if _, err := io.ReadFull(conn, data[:size]); err != nil { break }
     ... data[:size]] *)
Definition readFrame (conn : Stream) : Decoded * Stream :=
  let data := Slice.make bufSize in
  match Slice.upto data 2 with
  | None => (DecodePanic, conn)
  | Some hdr =>
    let r1 := io.ReadFull conn (Slice.len hdr) in
    match err r1 with
    | Some e => (DecodeErr e, rest r1)
    | None =>
      let data1 := Slice.fill data 0 (got r1) in
      match Slice.upto data1 2 with
      | None => (DecodePanic, rest r1)
      | Some hdr1 =>
        match BigEndian.Uint16 hdr1 with
        | None => (DecodePanic, rest r1)
        | Some size =>
          if size <=? 0 then (DecodeZero, rest r1)
          else
            match Slice.upto data1 size with
            | None => (DecodePanic, rest r1)
            | Some body =>
              let r2 := io.ReadFull (rest r1) (Slice.len body) in
              match err r2 with
              | Some e => (DecodeErr e, rest r2)
              | None =>
                let data2 := Slice.fill data1 0 (got r2) in
                match Slice.upto data2 size with
                | None => (DecodePanic, rest r2)
                | Some payload => (DecodeFrame payload, rest r2)
                end
              end
            end
        end
      end
    end
  end.

(** The slice [data[:2+size]] that [handleDevicePacket] publishes for a
    datagram: the two bytes [PutUint16] stores at offset 0, then the
    datagram, which the driver stored from offset 2. *)
Definition frame (payload : list byte) : list byte :=
  BigEndian.PutUint16 (BigEndian.uint16 (Slice.len payload)) ++ payload.

(** The length a read loop decodes from the first two bytes of [bs]. *)
Definition header (bs : list byte) : option Z :=
  BigEndian.Uint16 (firstn 2 bs).

(** A slice that is a whole frame with a length of at least one. *)
Definition wellFramed (data : list byte) : bool :=
  match header data with
  | Some L => (1 <=? L) && (Slice.len data =? 2 + L)
  | None => false
  end.

(* ------------------------------------------------------------------ *)
(** * Channels of byte slices

    A channel is modelled as the bounded FIFO of its buffer.  A receiver
    parked on the channel is not part of [Chan]: where a send depends on
    one, it is an argument ([parked] of [chan.send]).  The send that Go
    hands to a parked receiver directly is the append here, followed by
    that receiver's receive.  On a channel with a buffer (capacity at least
    one) a receiver parks only when the buffer is empty, where a send finds
    room anyway, so [chan.offer], which does not look for a receiver,
    decides as the run-time does.  On an unbuffered channel (capacity 0,
    which is what an absent configuration key gives) a send succeeds
    exactly when a receiver is parked: there [chan.offer] is the send that
    finds none, and [chan.send] is the send in general. *)

Record Chan : Type := mkChan {
  buf : list (list byte);     (* the queued slices, oldest first *)
  cap : Z;
  closed : bool
}.

Inductive Offer : Type :=
| Sent (ch : Chan)
| Full                 (* the [default:] branch of the [select] *)
| SendPanic.           (* send on a closed channel *)

Inductive Recv : Type :=
| Item (data : list byte) (ch : Chan)
| Nil                  (* closed and empty: the zero value, a nil slice *)
| Parked.              (* open and empty: the receiver blocks *)

Module chan.

(** [make(chan []byte, n)] *)
Definition make (n : Z) : Chan := mkChan [] n false.

(** [select { case ch <- data: ... default: ... }] *)
Definition offer (ch : Chan) (data : list byte) : Offer :=
  if closed ch then SendPanic
  else if Slice.len (buf ch) <? cap ch
       then Sent (mkChan (buf ch ++ [data]) (cap ch) (closed ch))
       else Full.

(** The same [select], as the run-time decides it (a send that does not
    block): a send on a closed channel panics; otherwise a receiver parked
    on the channel is handed the slice; otherwise the slice goes into the
    buffer if it has room; otherwise the [default:] branch is taken. *)
Definition send (parked : bool) (ch : Chan) (data : list byte) : Offer :=
  if closed ch then SendPanic
  else if parked
       then Sent (mkChan (buf ch ++ [data]) (cap ch) (closed ch))
       else if Slice.len (buf ch) <? cap ch
            then Sent (mkChan (buf ch ++ [data]) (cap ch) (closed ch))
            else Full.

(** [data := <-ch] *)
Definition recv (ch : Chan) : Recv :=
  match buf ch with
  | data :: more => Item data (mkChan more (cap ch) (closed ch))
  | [] => if closed ch then Nil else Parked
  end.

(** [close(ch)]; closing a closed channel panics. *)
Definition close (ch : Chan) : option Chan :=
  if closed ch then None else Some (mkChan (buf ch) (cap ch) true).

(** [for i := range ch { if i == nil { break } }]: the slices queued are
    never nil, so the loop ends when the channel is closed and empty;
    on an open channel it parks once the buffer is empty ([None]). *)
Fixpoint drain_loop (fuel : nat) (ch : Chan) : option Chan :=
  match fuel with
  | O => None
  | S fuel' =>
    match recv ch with
    | Item _ ch' => drain_loop fuel' ch'
    | Nil => Some ch
    | Parked => None
    end
  end.

Definition drain (ch : Chan) : option Chan :=
  drain_loop (S (length (buf ch))) ch.

End chan.

(* ------------------------------------------------------------------ *)
(** * Connections and the connection pool (connection_pool.go) *)

(** [uuid.UUID] is [[16]byte]. *)
Definition UUID : Type := list byte.

Module bytes.
(** [bytes.Equal(a, b)] *)
Definition Equal (a b : list byte) : bool :=
  if list_eq_dec Byte.byte_eq_dec a b then true else false.
End bytes.

(** The identity of a [net.Conn]. *)
Definition NetConn : Type := nat.

Record Connection : Type := mkConnection {
  Conn : NetConn;
  ID : UUID
}.

(** [NewConnection(conn)]; [fresh] is what [uuid.NewRandom()] draws. *)
Definition NewConnection (conn : NetConn) (fresh : UUID) : Connection :=
  mkConnection conn fresh.

(** What the engine has done to its sockets: the connections closed, in
    the order of the [Close] calls, and the slices written, newest last. *)
Record Net : Type := mkNet {
  closedConns : list NetConn;
  wire : list (NetConn * list byte)
}.

Definition net_close (n : Net) (conn : NetConn) : Net :=
  mkNet (closedConns n ++ [conn]) (wire n).

Definition net_write (n : Net) (conn : NetConn) (data : list byte) : Net :=
  mkNet (closedConns n) (wire n ++ [(conn, data)]).

(** The pool is its field [list]; every method holds the lock for its
    whole body, so each is one atomic step. *)
Definition ConnectionPool : Type := list Connection.

Module Pool.

Definition NewConnectionPool : ConnectionPool := [].

Definition Add (c : ConnectionPool) (conn : NetConn) (fresh : UUID)
  : ConnectionPool * UUID :=
  let connection := NewConnection conn fresh in
  (c ++ [connection], ID connection).

(** [draw] is the generator's state; [rand.IntN(n)] lies in [[0, n)]. *)
Definition IntN (draw : nat) (n : nat) : nat := Nat.modulo draw n.

Definition Rand (c : ConnectionPool) (draw : nat) : option Connection :=
  if (Slice.len c <=? 0) then None
  else nth_error c (IntN draw (length c)).

Definition Count (c : ConnectionPool) : Z := Slice.len c.

(** The loop of [Remove]; [connection] and [kept] are its two locals
    (the source calls the second one [list]). *)
Fixpoint Remove_loop (l : list Connection) (uuid : UUID)
         (connection : option Connection) (kept : list Connection)
  : option Connection * list Connection :=
  match l with
  | [] => (connection, kept)
  | conn :: l' =>
    if bytes.Equal (ID conn) uuid
    then Remove_loop l' uuid (Some conn) kept
    else Remove_loop l' uuid connection (kept ++ [conn])
  end.

Definition Remove (c : ConnectionPool) (uuid : UUID)
  : option Connection * ConnectionPool :=
  Remove_loop c uuid None [].

Definition RemoveAndClose (c : ConnectionPool) (n : Net) (uuid : UUID)
  : ConnectionPool * Net :=
  match Remove c uuid with
  | (Some conn, c') => (c', net_close n (Conn conn))
  | (None, c') => (c', n)
  end.

Definition RemoveAndCloseAll (c : ConnectionPool) (n : Net)
  : ConnectionPool * Net :=
  (@nil Connection, fold_left (fun n conn => net_close n (Conn conn)) c n).

End Pool.

(* ------------------------------------------------------------------ *)
(** * The TUN device *)

(** What one [device.Read(buf)] returns: an error, or a length together
    with the bytes the driver stored at the start of [buf]. *)
Inductive TunRead : Type :=
| TunErr
| TunData (size : Z) (stored : list byte).

Record Tun : Type := mkTun {
  tunClosed : bool;
  delivered : list (list byte)     (* the datagrams written, newest last *)
}.

(* ------------------------------------------------------------------ *)
(** * Loops *)

(** How one pass through a loop body ends. *)
Inductive Ctl : Type :=
| Continue
| Break          (* [break], or [return] from the goroutine *)
| Park           (* blocked in a channel receive *)
| Panic.

(** How a goroutine's loop stands after the inputs given to it. *)
Inductive Exit : Type :=
| Stopped        (* the loop condition was false *)
| Broke
| Parked_
| Panicked
| Looping.       (* still in the loop, waiting for its next input *)

Section Loop.

Variables (St In : Type).
Variable guard : St -> bool.
Variable body : St -> In -> Ctl * St.

(** [for guard { body }], driven by one input per pass. *)
Fixpoint loop (inputs : list In) (s : St) : Exit * St :=
  if guard s then
    match inputs with
    | [] => (Looping, s)
    | i :: inputs' =>
      match body s i with
      | (Continue, s') => loop inputs' s'
      | (Break, s') => (Broke, s')
      | (Park, s') => (Parked_, s')
      | (Panic, s') => (Panicked, s')
      end
    end
  else (Stopped, s).

End Loop.

(* ------------------------------------------------------------------ *)
(** * The plumbing shared by both engines

    [Server] and [Client] carry the same fields for the data path and their
    four data-path goroutines have the same bodies; they are modelled once,
    on the record of the shared fields.  [net] and [trace] are not fields of
    the Go structs: they record the effects on the sockets and the order of
    the shutdown steps. *)

Inductive Queue : Type := DeviceToRemote | RemoteToDevice.

Inductive Event : Type :=
| EvStatusOff                 (* c.status = false *)
| EvListenerClose             (* c.ln.Close() *)
| EvDeviceClose               (* c.device.Close() *)
| EvQueueClose (q : Queue)    (* close(channel) *)
| EvCloseAll                  (* c.connections.RemoveAndCloseAll() *)
| EvWait                      (* c.Wait(): every goroutine has returned *)
| EvQueueDrain (q : Queue).   (* for i := range channel *)

Module Engine.

Record t : Type := mk {
  id : UUID;
  device : Tun;
  status : bool;
  connections : ConnectionPool;
  deviceToRemoteChannel : Chan;
  remoteToDeviceChannel : Chan;
  net : Net;
  trace : list Event
}.

Definition with_device (c : t) (d : Tun) : t :=
  mk (id c) d (status c) (connections c) (deviceToRemoteChannel c)
     (remoteToDeviceChannel c) (net c) (trace c).

Definition with_status (c : t) (b : bool) : t :=
  mk (id c) (device c) b (connections c) (deviceToRemoteChannel c)
     (remoteToDeviceChannel c) (net c) (trace c).

Definition with_pool (c : t) (p : ConnectionPool) (n : Net) : t :=
  mk (id c) (device c) (status c) p (deviceToRemoteChannel c)
     (remoteToDeviceChannel c) n (trace c).

Definition with_net (c : t) (n : Net) : t :=
  with_pool c (connections c) n.

Definition queue (c : t) (q : Queue) : Chan :=
  match q with
  | DeviceToRemote => deviceToRemoteChannel c
  | RemoteToDevice => remoteToDeviceChannel c
  end.

Definition with_queue (c : t) (q : Queue) (ch : Chan) : t :=
  match q with
  | DeviceToRemote =>
    mk (id c) (device c) (status c) (connections c) ch
       (remoteToDeviceChannel c) (net c) (trace c)
  | RemoteToDevice =>
    mk (id c) (device c) (status c) (connections c)
       (deviceToRemoteChannel c) ch (net c) (trace c)
  end.

Definition emit (c : t) (e : Event) : t :=
  mk (id c) (device c) (status c) (connections c) (deviceToRemoteChannel c)
     (remoteToDeviceChannel c) (net c) (trace c ++ [e]).

(** [c.connections.RemoveAndClose(uuid)] *)
Definition RemoveAndClose (c : t) (uuid : UUID) : t :=
  let (p, n) := Pool.RemoveAndClose (connections c) (net c) uuid in
  with_pool c p n.

(** The engine once [data] has been appended to the queue [q]. *)
Definition pushed (c : t) (q : Queue) (data : list byte) : t :=
with_queue c q (mkChan (buf (queue c q) ++ [data]) (cap (queue c q))
                       (closed (queue c q))).

(** [select { case channel <- data: continue
             default: log.Printf(...); continue }] *)
Definition publish (c : t) (q : Queue) (data : list byte) : Ctl * t :=
  match chan.offer (queue c q) data with
  | Sent ch => (Continue, with_queue c q ch)
  | Full => (Continue, c)
  | SendPanic => (Panic, c)
  end.

(** The body of [for c.status] in [handleDevicePacket]:
    [data := make([]byte, 0xFFFF)
     size, err := c.device.Read(data[2:])
     if err != nil { break }
     if size <= 0 { continue }
     binary.BigEndian.PutUint16(data[:2], uint16(size))
     select { case c.deviceToRemoteChannel <- data[:2+size]: ... }] *)
Definition handleDevicePacket_body (c : t) (r : TunRead) : Ctl * t :=
  let data := Slice.make bufSize in
  match Slice.from data 2 with
  | None => (Panic, c)
  | Some _ =>
    match r with
    | TunErr => (Break, c)
    | TunData size stored =>
      let data := Slice.fill data 2 stored in
      if size <=? 0 then (Continue, c)
      else
        match Slice.upto data 2 with
        | None => (Panic, c)
        | Some _ =>
          let data :=
            Slice.fill data 0
                       (BigEndian.PutUint16 (BigEndian.uint16 size)) in
          match Slice.upto data (2 + size) with
          | None => (Panic, c)
          | Some frame => publish c DeviceToRemote frame
          end
        end
    end
  end.

Definition handleDevicePacket (reads : list TunRead) (c : t) : Exit * t :=
  loop status handleDevicePacket_body reads c.

(** The [select] of [publish] when a receiver may be parked on the queue. *)
Definition publish_with (parked : bool) (c : t) (q : Queue)
           (data : list byte) : Ctl * t :=
  match chan.send parked (queue c q) data with
  | Sent ch => (Continue, with_queue c q ch)
  | Full => (Continue, c)
  | SendPanic => (Panic, c)
  end.

(** The body of [for c.status] in [handleDevicePacket] once more, for any
    outbound queue, buffered or not: [parked] says whether a worker is
    parked in its receive when the reader comes to the [select]. *)
Definition handleDevicePacket_step (parked : bool) (c : t) (r : TunRead)
  : Ctl * t :=
  let data := Slice.make bufSize in
  match Slice.from data 2 with
  | None => (Panic, c)
  | Some _ =>
    match r with
    | TunErr => (Break, c)
    | TunData size stored =>
      let data := Slice.fill data 2 stored in
      if size <=? 0 then (Continue, c)
      else
        match Slice.upto data 2 with
        | None => (Panic, c)
        | Some _ =>
          let data :=
            Slice.fill data 0
                       (BigEndian.PutUint16 (BigEndian.uint16 size)) in
          match Slice.upto data (2 + size) with
          | None => (Panic, c)
          | Some frame => publish_with parked c DeviceToRemote frame
          end
        end
    end
  end.

(** The body of the [for] of a carrier's read loop
    ([Server.handleConn], [Client.handleRemotePacket]); the state of the
    loop is the engine and what the carrier has yet to deliver. *)
Definition readLoop_body (s : t * Stream) (_ : unit) : Ctl * (t * Stream) :=
  let (c, conn) := s in
  match readFrame conn with
  | (DecodeErr _, conn') => (Break, (c, conn'))
  | (DecodeZero, conn') => (Break, (c, conn'))
  | (DecodePanic, conn') => (Panic, (c, conn'))
  | (DecodeFrame payload, conn') =>
    let (k, c') := publish c RemoteToDevice payload in (k, (c', conn'))
  end.

(** [for { ... }]: every pass that continues has taken at least the two
    header bytes from the stream, so one pass more than the stream has
    bytes is enough. *)
Definition readLoop (c : t) (conn : Stream) : Exit * (t * Stream) :=
  loop (fun _ => true) readLoop_body
       (repeat tt (S (length (bytes_of conn)))) (c, conn).

(** What a worker's pass depends on besides the engine: the generator's
    draw and whether [conn.Write(data)] returns a nil error. *)
Record WorkerIn : Type := mkWorkerIn {
  draw : nat;
  writeOk : bool
}.

(** The body of [for c.status] in [handleDeviceToRemoteChannel]:
    [data := <-c.deviceToRemoteChannel
     if data == nil { continue }
     conn := c.connections.Rand()
     if conn == nil { continue }
     if _, err := conn.Write(data); err != nil {
       c.connections.RemoveAndClose(conn.ID) }] *)
Definition handleDeviceToRemoteChannel_body (c : t) (i : WorkerIn)
  : Ctl * t :=
  match chan.recv (deviceToRemoteChannel c) with
  | Parked => (Park, c)
  | Nil => (Continue, c)
  | Item data ch =>
    let c := with_queue c DeviceToRemote ch in
    match Pool.Rand (connections c) (draw i) with
    | None => (Continue, c)
    | Some conn =>
      if writeOk i
      then (Continue, with_net c (net_write (net c) (Conn conn) data))
      else (Continue, RemoveAndClose c (ID conn))
    end
  end.

Definition handleDeviceToRemoteChannel (ins : list WorkerIn) (c : t)
  : Exit * t :=
  loop status handleDeviceToRemoteChannel_body ins c.

(** The body of [for c.status] in [handleRemoteToDeviceChannel]:
    [data := <-c.remoteToDeviceChannel
     if data == nil { break }
     if _, err := c.device.Write(data); err != nil { continue }];
    the input says whether [device.Write] returns a nil error. *)
Definition handleRemoteToDeviceChannel_body (c : t) (writeOk : bool)
  : Ctl * t :=
  match chan.recv (remoteToDeviceChannel c) with
  | Parked => (Park, c)
  | Nil => (Break, c)
  | Item data ch =>
    let c := with_queue c RemoteToDevice ch in
    if writeOk
    then (Continue,
          with_device c (mkTun (tunClosed (device c))
                               (delivered (device c) ++ [data])))
    else (Continue, c)
  end.

Definition handleRemoteToDeviceChannel (ins : list bool) (c : t)
  : Exit * t :=
  loop status handleRemoteToDeviceChannel_body ins c.

(** The steps of [Close] that both engines share. *)

Definition setStatusFalse (c : t) : t :=
  emit (with_status c false) EvStatusOff.

Definition deviceClose (c : t) : t :=
  emit (with_device c (mkTun true (delivered (device c)))) EvDeviceClose.

Definition closeQueue (c : t) (q : Queue) : option t :=
  match chan.close (queue c q) with
  | Some ch => Some (emit (with_queue c q ch) (EvQueueClose q))
  | None => None
  end.

Definition RemoveAndCloseAll (c : t) : t :=
  let (p, n) := Pool.RemoveAndCloseAll (connections c) (net c) in
  emit (with_pool c p n) EvCloseAll.

(** [c.Wait()] blocks until every goroutine that registered with the
    wait group has called [Done].  The goroutines are not part of the
    engine, so the model does not decide whether the join returns: [Wait]
    is its return, and a result [Some] of [Close] is the state [Close]
    leaves in a run in which the join returns. *)
Definition Wait (c : t) : t := emit c EvWait.

Definition drainQueue (c : t) (q : Queue) : option t :=
  match chan.drain (queue c q) with
  | Some ch => Some (emit (with_queue c q ch) (EvQueueDrain q))
  | None => None
  end.

End Engine.

(** Every slice waiting in the outbound queue is a whole frame with a
    length of at least one, and so is every slice written to a carrier,
    apart from the endpoint id with which a dial opens its carrier
    ([Client.doDialConn]). *)
Definition framesOnly (c : Engine.t) : Prop :=
  Forall (fun d => wellFramed d = true) (buf (Engine.deviceToRemoteChannel c))
  /\ Forall (fun w => wellFramed (snd w) = true \/ snd w = Engine.id c)
            (wire (Engine.net c)).

(** Neither queue holds more slices than its capacity. *)
Definition queuesBounded (c : Engine.t) : Prop :=
  Slice.len (buf (Engine.deviceToRemoteChannel c))
  <= cap (Engine.deviceToRemoteChannel c)
  /\ Slice.len (buf (Engine.remoteToDeviceChannel c))
     <= cap (Engine.remoteToDeviceChannel c).

(** The order the shutdown description asks for, as far as the queues go:
    no queue is closed or drained before the join. *)
Fixpoint specQueuesAfterJoin (tr : list Event) : bool :=
  match tr with
  | [] => true
  | EvWait :: _ => true
  | EvQueueClose _ :: _ => false
  | EvQueueDrain _ :: _ => false
  | _ :: tr' => specQueuesAfterJoin tr'
  end.

(* ------------------------------------------------------------------ *)
(** * Configuration (the fields the engines read) *)

Record Config : Type := mkConfig {
  cfgID : UUID;                       (* uuid.MustParse(cfg.ID) *)
  Mode : String.string;
  Threads : Z;
  ConnectionCount : Z;
  DeviceToRemoteBufferSize : Z;
  RemoteToDeviceBufferSize : Z
}.

(** The state both constructors build once the listener or dialer and the
    TUN device exist: [status: true], an empty pool and the two channels. *)
Definition newEngine (cfg : Config) : Engine.t :=
  Engine.mk (cfgID cfg) (mkTun false []) true Pool.NewConnectionPool
            (chan.make (DeviceToRemoteBufferSize cfg))
            (chan.make (RemoteToDeviceBufferSize cfg))
            (mkNet [] []) [].

Notation "'do' x <- a ; b" :=
  (match a with Some x => b | None => None end)
  (at level 10, x name, a at level 200, b at level 200).

(** How a connection handler ends. *)
Inductive Handled : Type :=
| AuthReadFailed               (* the 16-byte read returned an error *)
| AuthMismatch                 (* the 16 bytes are not the endpoint id *)
| Served (e : Exit).           (* the read loop ran and ended with [e] *)

(** [conn.SetReadDeadline(t)]: of what the connection will deliver, only
    the first [intime] segments arrive before [t]; a read that needs more
    fails with the deadline error. *)
Definition SetReadDeadline (rd : Stream) (intime : nat) : Stream * Stream :=
  (mkStream (firstn intime (segs rd))
            (if (intime <? length (segs rd))%nat then ErrDeadline
             else fault rd),
   mkStream (skipn intime (segs rd)) (fault rd)).

(** [conn.SetReadDeadline(time.Time{})]: what was left unread before the
    deadline, then the later segments. *)
Definition ClearDeadline (unread later : Stream) : Stream :=
  mkStream (segs unread ++ segs later) (fault later).

(* ------------------------------------------------------------------ *)
(** * The responder (server.go) *)

Module Server.

Record t : Type := mk {
  core : Engine.t;
  lnClosed : bool              (* the state of [ln] *)
}.

Definition NewServer (cfg : Config) : t := mk (newEngine cfg) false.

Definition on_core (f : Engine.t -> Engine.t) (c : t) : t :=
  mk (f (core c)) (lnClosed c).

Definition lnClose (c : t) : t :=
  mk (Engine.emit (core c) EvListenerClose) true.

(** [Server.Close] *)
Definition Close (c : t) : option t :=
  let c := on_core Engine.setStatusFalse c in
  let c := lnClose c in
  let c := on_core Engine.deviceClose c in
  do e <- Engine.closeQueue (core c) DeviceToRemote;
  do e <- Engine.closeQueue e RemoteToDevice;
  let e := Engine.RemoveAndCloseAll e in
  let e := Engine.Wait e in
  let e := Engine.RemoveAndCloseAll e in
  do e <- Engine.drainQueue e DeviceToRemote;
  do e <- Engine.drainQueue e RemoteToDevice;
  Some (mk e (lnClosed c)).

(** [Server.handleConn]; [conn] is the accepted connection, [rd] what it
    will deliver, [intime] how much of it arrives within three seconds
    and [fresh] the handle [Add] draws for it. *)
Definition handleConn (c : t) (conn : NetConn) (rd : Stream)
           (intime : nat) (fresh : UUID) : Handled * t :=
  let (visible, later) := SetReadDeadline rd intime in
  let r := io.ReadFull visible 16 in
  match err r with
  | Some _ =>
    (AuthReadFailed,
     on_core (fun e => Engine.with_net e (net_close (Engine.net e) conn)) c)
  | None =>
    let rd := ClearDeadline (rest r) later in
    if negb (bytes.Equal (got r) (Engine.id (core c)))
    then
      (AuthMismatch,
       on_core (fun e => Engine.with_net e (net_close (Engine.net e) conn)) c)
    else
      let e := core c in
      let (p, uuid) := Pool.Add (Engine.connections e) conn fresh in
      let e := Engine.with_pool e p (Engine.net e) in
      let '(x, (e, _)) := Engine.readLoop e rd in
      (* defer c.connections.RemoveAndClose(uuid) *)
      (Served x, mk (Engine.RemoveAndClose e uuid) (lnClosed c))
  end.

Definition handleDevicePacket (reads : list TunRead) (c : t) : Exit * t :=
  let (x, e) := Engine.handleDevicePacket reads (core c) in
  (x, mk e (lnClosed c)).

Definition handleDeviceToRemoteChannel (ins : list Engine.WorkerIn) (c : t)
  : Exit * t :=
  let (x, e) := Engine.handleDeviceToRemoteChannel ins (core c) in
  (x, mk e (lnClosed c)).

Definition handleRemoteToDeviceChannel (ins : list bool) (c : t)
  : Exit * t :=
  let (x, e) := Engine.handleRemoteToDeviceChannel ins (core c) in
  (x, mk e (lnClosed c)).

(** [c.ln.Accept()]: what would arrive is accepted unless the listener has
    been closed, in which case [Accept] returns an error. *)
Definition Accept (c : t) (incoming : option NetConn) : option NetConn :=
  if lnClosed c then None else incoming.

(** The body of [for c.status] in [acceptConn]:
    [conn, err := c.ln.Accept()
     if err != nil { break }
     go c.handleConn(conn)];
    the state pairs the engine with the connections handed to a handler,
    oldest first. *)
Definition acceptConn_body (s : t * list NetConn) (incoming : option NetConn)
  : Ctl * (t * list NetConn) :=
  let (c, spawned) := s in
  match Accept c incoming with
  | None => (Break, s)
  | Some conn => (Continue, (c, spawned ++ [conn]))
  end.

Definition acceptConn (ins : list (option NetConn)) (c : t)
  : Exit * (t * list NetConn) :=
  loop (fun s => Engine.status (core (fst s))) acceptConn_body ins (c, []).

End Server.

(* ------------------------------------------------------------------ *)
(** * The initiator (the client engine) *)

Module Client.

Record t : Type := mk {
  core : Engine.t;
  connectionsCount : Z
}.

Definition NewClient (cfg : Config) : t :=
  mk (newEngine cfg) (ConnectionCount cfg).

Definition on_core (f : Engine.t -> Engine.t) (c : t) : t :=
  mk (f (core c)) (connectionsCount c).

(** [Client.Close] *)
Definition Close (c : t) : option t :=
  let c := on_core Engine.setStatusFalse c in
  let c := on_core Engine.deviceClose c in
  do e <- Engine.closeQueue (core c) DeviceToRemote;
  do e <- Engine.closeQueue e RemoteToDevice;
  let e := Engine.RemoveAndCloseAll e in
  let e := Engine.Wait e in
  let e := Engine.RemoveAndCloseAll e in
  do e <- Engine.drainQueue e DeviceToRemote;
  do e <- Engine.drainQueue e RemoteToDevice;
  Some (mk e (connectionsCount c)).

(** One pass of [for c.status] in [dialConn]: the number of
    [doDialConn] goroutines it starts. *)
Definition dialConn_body (c : t) : Z :=
  let size := connectionsCount c - Pool.Count (Engine.connections (core c)) in
  if 0 <? size then size else 0.

(** [Client.handleRemotePacket(uuid, conn)] *)
Definition handleRemotePacket (c : t) (uuid : UUID) (rd : Stream)
  : Exit * t :=
  let '(x, (e, _)) := Engine.readLoop (core c) rd in
  (* defer c.connections.RemoveAndClose(uuid) *)
  (x, mk (Engine.RemoveAndClose e uuid) (connectionsCount c)).

Definition handleDevicePacket (reads : list TunRead) (c : t) : Exit * t :=
  let (x, e) := Engine.handleDevicePacket reads (core c) in
  (x, mk e (connectionsCount c)).

Definition handleDeviceToRemoteChannel (ins : list Engine.WorkerIn) (c : t)
  : Exit * t :=
  let (x, e) := Engine.handleDeviceToRemoteChannel ins (core c) in
  (x, mk e (connectionsCount c)).

Definition handleRemoteToDeviceChannel (ins : list bool) (c : t)
  : Exit * t :=
  let (x, e) := Engine.handleRemoteToDeviceChannel ins (core c) in
  (x, mk e (connectionsCount c)).

(** What a dial depends on besides the engine: what [c.dialer.Dial]
    returns ([None] for an error), whether [conn.Write(c.id[:])] returns a
    nil error, and the handle [Add] draws. *)
Record DialIn : Type := mkDialIn {
  dialed : option NetConn;
  idWritten : bool;
  freshID : UUID
}.

(** How a dial ends. *)
Inductive Dialed : Type :=
| DialFailed                    (* Dial returned an error *)
| IdWriteFailed                 (* the write of the endpoint id failed *)
| Joined (uuid : UUID).         (* the carrier is in the pool *)

(** [Client.doDialConn]:
    [conn, err := c.dialer.Dial("tcp", c.endpoint)
     if err != nil { return }
     if _, err := conn.Write(c.id[:]); err != nil { conn.Close(); return }
     uuid := c.connections.Add(conn)
     go c.handleRemotePacket(uuid, conn)] *)
Definition doDialConn (c : t) (i : DialIn) : Dialed * t :=
  match dialed i with
  | None => (DialFailed, c)
  | Some conn =>
    if negb (idWritten i)
    then (IdWriteFailed,
          on_core (fun e => Engine.with_net e (net_close (Engine.net e) conn))
                  c)
    else
      let e := core c in
      let e := Engine.with_net e (net_write (Engine.net e) conn (Engine.id e)) in
      let (p, uuid) := Pool.Add (Engine.connections e) conn (freshID i) in
      (Joined uuid, mk (Engine.with_pool e p (Engine.net e))
                       (connectionsCount c))
  end.

(** The dials in [ins], each run to its end, one after the other. *)
Definition doDialConns (ins : list DialIn) (c : t) : t :=
  fold_left (fun c i => snd (doDialConn c i)) ins c.

(** One pass of [for c.status] in [dialConn]:
    [size := c.connectionsCount - c.connections.Count()
     if size > 0 { for range size { go c.doDialConn() } }
     time.Sleep(time.Second * 1)];
    [ins] are the dials of this pass that end before the next one. *)
Definition dialConn_pass (c : t) (ins : list DialIn) : Ctl * t :=
  (Continue, doDialConns (firstn (Z.to_nat (dialConn_body c)) ins) c).

Definition dialConn (passes : list (list DialIn)) (c : t) : Exit * t :=
  loop (fun c => Engine.status (core c)) dialConn_pass passes c.

End Client.

(* ------------------------------------------------------------------ *)
(** * main.go *)

Inductive Started : Type :=
| StartedClient (c : Client.t)      (* client(&info) *)
| StartedServer (s : Server.t).     (* server(&info) *)

(** [switch info.Mode { case "client": client(&info)
                        case "server": server(&info) }] *)
Definition main (cfg : Config) : option Started :=
  if String.eqb (Mode cfg) "client"%string
  then Some (StartedClient (Client.NewClient cfg))
  else if String.eqb (Mode cfg) "server"%string
       then Some (StartedServer (Server.NewServer cfg))
       else None.

(* ================================================================== *)
(** * Properties *)

Unset Implicit Arguments.
(* ------------------------------------------------------------------ *)
(** * Facts about slices *)

Section SliceFacts.

Lemma len_nonneg {A} (l : list A) : 0 <= Slice.len l.
Proof. unfold Slice.len; lia. Qed.

Lemma len_app {A} (l l' : list A) :
  Slice.len (l ++ l') = Slice.len l + Slice.len l'.
Proof. unfold Slice.len; rewrite length_app; lia. Qed.

Lemma len_make n : 0 <= n -> Slice.len (Slice.make n) = n.
Proof.
  intros Hn; unfold Slice.len, Slice.make.
  rewrite repeat_length; lia.
Qed.

Lemma upto_Some data hi :
  0 <= hi <= Slice.len data ->
  Slice.upto data hi = Some (firstn (Z.to_nat hi) data).
Proof.
  intros [H0 H1]; unfold Slice.upto.
  apply Z.leb_le in H0, H1; rewrite H0, H1; reflexivity.
Qed.

Lemma upto_None data hi :
  Slice.len data < hi -> Slice.upto data hi = None.
Proof.
  intros H; unfold Slice.upto.
  apply Z.leb_gt in H; rewrite H, andb_false_r; reflexivity.
Qed.

Lemma fill_length data off src :
  (Z.to_nat off <= length data)%nat ->
  length (Slice.fill data off src) = length data.
Proof.
  intros H; unfold Slice.fill.
  rewrite !length_app, length_skipn, !length_firstn; lia.
Qed.

Lemma len_fill data off src :
  0 <= off <= Slice.len data ->
  Slice.len (Slice.fill data off src) = Slice.len data.
Proof.
  unfold Slice.len; intros H; rewrite fill_length; lia.
Qed.

(** A callee that stores [src] at the start of a buffer long enough
    leaves [src] as the buffer's prefix. *)
Lemma fill_0 data src :
  (length src <= length data)%nat ->
  Slice.fill data 0 src = src ++ skipn (length src) data.
Proof.
  intros H; unfold Slice.fill; cbn [Z.to_nat firstn app Nat.add].
  rewrite Nat.sub_0_r, firstn_all2 by lia; reflexivity.
Qed.

Lemma fill_0_prefix data src :
  (length src <= length data)%nat ->
  firstn (length src) (Slice.fill data 0 src) = src.
Proof.
  intros H; rewrite fill_0 by exact H.
  rewrite firstn_app, Nat.sub_diag, firstn_all, firstn_0, app_nil_r.
  reflexivity.
Qed.

(** The reader's buffer after the driver stored [stored] at offset 2 and
    the two header bytes were written at offset 0. *)
Lemma fill_header_payload data h0 h1 stored :
  (2 + length stored <= length data)%nat ->
  firstn (2 + length stored)
         (Slice.fill (Slice.fill data 2 stored) 0 [h0; h1])
  = h0 :: h1 :: stored.
Proof.
  intros H.
  rewrite fill_0 by (rewrite fill_length; simpl; lia).
  change (length [h0; h1]) with 2%nat.
  change ([h0; h1] ++ ?l) with (h0 :: h1 :: l).
  cbn [Nat.add firstn]; do 2 f_equal.
  unfold Slice.fill; change (Z.to_nat 2) with 2%nat.
  rewrite (firstn_all2 stored) by lia.
  rewrite skipn_app, length_firstn, Nat.min_l by lia.
  rewrite skipn_all2 by (rewrite length_firstn; lia).
  cbn [Nat.sub app skipn].
  rewrite firstn_app, Nat.sub_diag, firstn_all, firstn_0, app_nil_r.
  reflexivity.
Qed.

End SliceFacts.

(* ------------------------------------------------------------------ *)
(** * The two length bytes *)

Section BigEndianFacts.

Lemma byte_val_of x : BigEndian.byte_val (BigEndian.byte_of x) = x mod 256.
Proof.
  unfold BigEndian.byte_val, BigEndian.byte_of.
  pose proof (Z.mod_pos_bound x 256 ltac:(lia)) as Hb.
  destruct (Byte.of_N (Z.to_N (x mod 256))) as [b|] eqn:E.
  - apply Byte.to_of_N in E; rewrite E; lia.
  - apply Byte.of_N_None_iff in E; lia.
Qed.

Lemma byte_val_range b : 0 <= BigEndian.byte_val b < 256.
Proof.
  unfold BigEndian.byte_val.
  pose proof (Byte.to_N_bounded b); lia.
Qed.

Lemma lor_shift_bytes v :
  0 <= v < 65536 ->
  Z.lor (v mod 256) (Z.shiftl (Z.shiftr v 8 mod 256) 8) = v.
Proof.
  intros Hv; apply Z.bits_inj'; intros n Hn.
  rewrite Z.lor_spec.
  change 256 with (2 ^ 8).
  destruct (Z.ltb_spec n 8) as [Hlt|Hge].
  - rewrite Z.mod_pow2_bits_low, Z.shiftl_spec_low by lia.
    apply orb_false_r.
  - rewrite Z.mod_pow2_bits_high by lia. cbn [orb].
    rewrite Z.shiftl_spec by lia.
    destruct (Z.ltb_spec (n - 8) 8) as [Hlt'|Hge'].
    + rewrite Z.mod_pow2_bits_low, Z.shiftr_spec by lia.
      f_equal; lia.
    + rewrite Z.mod_pow2_bits_high by lia.
      symmetry.
      destruct (Z.eq_dec v 0) as [->|Hnz]; [apply Z.bits_0|].
      apply Z.bits_above_log2; [lia|].
      assert (Z.log2 v < 16) by (apply Z.log2_lt_pow2; simpl; lia).
      lia.
Qed.

(** Reading back the two bytes [PutUint16] stored gives the value. *)
Lemma Uint16_PutUint16 v tail :
  0 <= v < 65536 ->
  BigEndian.Uint16 (BigEndian.PutUint16 v ++ tail) = Some v.
Proof.
  intros Hv; unfold BigEndian.PutUint16, BigEndian.Uint16.
  cbn [app]; rewrite !byte_val_of, lor_shift_bytes by exact Hv.
  reflexivity.
Qed.

Lemma Uint16_range b v : BigEndian.Uint16 b = Some v -> 0 <= v < 65536.
Proof.
  destruct b as [|b0 [|b1 tl]]; cbn [BigEndian.Uint16]; try discriminate.
  pose proof (byte_val_range b0) as H0.
  pose proof (byte_val_range b1) as H1.
  set (lo := BigEndian.byte_val b1) in *.
  set (hi := Z.shiftl (BigEndian.byte_val b0) 8).
  intros E; assert (Ev : v = Z.lor lo hi) by congruence.
  rewrite Ev; clear E Ev.
  assert (Hhi : 0 <= hi < 65536).
  { unfold hi; rewrite Z.shiftl_mul_pow2 by lia.
    change (2 ^ 8) with 256; lia. }
  assert (Hnn : 0 <= Z.lor lo hi) by (apply Z.lor_nonneg; lia).
  split; [exact Hnn|].
  destruct (Z.eq_dec (Z.lor lo hi) 0) as [->|Hnz]; [lia|].
  apply (Z.log2_lt_pow2 _ 16); [lia|].
  rewrite Z.log2_lor by lia.
  apply Z.max_lub_lt.
  - destruct (Z.eq_dec lo 0) as [->|]; [cbn; lia|].
    apply Z.log2_lt_pow2; [lia | change (2 ^ 16) with 65536; lia].
  - destruct (Z.eq_dec hi 0) as [->|]; [cbn; lia|].
    apply Z.log2_lt_pow2; [lia | change (2 ^ 16) with 65536; lia].
Qed.

Lemma uint16_small x : 0 <= x < 65536 -> BigEndian.uint16 x = x.
Proof. intros H; unfold BigEndian.uint16; apply Z.mod_small; exact H. Qed.

End BigEndianFacts.

(* ------------------------------------------------------------------ *)
(** * io.ReadFull *)

Section ReadFullFacts.

Lemma read_loop_enough ss f : forall want acc,
  (want <= length (concat ss))%nat ->
  exists ss',
    io.read_loop ss f want acc
    = (acc ++ firstn want (concat ss), None, ss')
    /\ concat ss' = skipn want (concat ss).
Proof.
  induction ss as [|s ss IH]; intros want acc Hw.
  - cbn in Hw. assert (want = 0%nat) by lia; subst want.
    exists []; cbn; rewrite app_nil_r; auto.
  - destruct want as [|w].
    + exists (s :: ss); cbn; rewrite app_nil_r; auto.
    + cbn [io.read_loop concat].
      destruct (Nat.leb_spec (length s) (S w)) as [Hle|Hgt].
      * cbn [concat] in Hw; rewrite length_app in Hw.
        destruct (IH (S w - length s)%nat (acc ++ s) ltac:(lia))
          as (ss' & E & Hc).
        exists ss'; rewrite E; split.
        -- rewrite firstn_app, (firstn_all2 s) by lia.
           rewrite app_assoc; reflexivity.
        -- rewrite Hc, skipn_app, (skipn_all2 s) by lia; reflexivity.
      * exists (skipn (S w) s :: ss); split.
        -- rewrite firstn_app.
           replace (S w - length s)%nat with 0%nat by lia.
           rewrite firstn_0, app_nil_r; reflexivity.
        -- cbn [concat]; rewrite skipn_app.
           replace (S w - length s)%nat with 0%nat by lia.
           reflexivity.
Qed.

Lemma read_loop_short ss f : forall want acc,
  (length (concat ss) < want)%nat ->
  io.read_loop ss f want acc = (acc ++ concat ss, Some f, []).
Proof.
  induction ss as [|s ss IH]; intros want acc Hw.
  - destruct want; [cbn in Hw; lia|]. cbn; rewrite app_nil_r; reflexivity.
  - destruct want as [|w]; [lia|].
    cbn [concat] in *; rewrite length_app in Hw.
    cbn [io.read_loop].
    destruct (Nat.leb_spec (length s) (S w)) as [Hle|Hgt]; [|lia].
    rewrite IH by lia; rewrite app_assoc; reflexivity.
Qed.

(** When the stream still holds [n] bytes, [ReadFull] returns exactly the
    next [n], however they are split into segments, and leaves the rest. *)
Lemma ReadFull_enough r n :
  0 <= n <= Slice.len (bytes_of r) ->
  err (io.ReadFull r n) = None
  /\ got (io.ReadFull r n) = firstn (Z.to_nat n) (bytes_of r)
  /\ bytes_of (rest (io.ReadFull r n)) = skipn (Z.to_nat n) (bytes_of r)
  /\ fault (rest (io.ReadFull r n)) = fault r.
Proof.
  intros Hn; unfold io.ReadFull, bytes_of, Slice.len in *.
  destruct (read_loop_enough (segs r) (fault r) (Z.to_nat n) []
              ltac:(lia)) as (ss' & E & Hc).
  rewrite E; cbn; auto.
Qed.

(** When the stream fails before [n] bytes have arrived, [ReadFull]
    returns an error, with fewer than [n] bytes in the buffer. *)
Lemma ReadFull_short r n :
  Slice.len (bytes_of r) < n ->
  got (io.ReadFull r n) = bytes_of r
  /\ segs (rest (io.ReadFull r n)) = []
  /\ err (io.ReadFull r n)
     = Some (match bytes_of r, fault r with
             | _ :: _, EOF => ErrUnexpectedEOF
             | _, e => e
             end).
Proof.
  intros Hn; unfold io.ReadFull, bytes_of, Slice.len in *.
  rewrite read_loop_short by lia.
  cbn [app]; repeat split.
  destruct (concat (segs r)), (fault r); reflexivity.
Qed.

Lemma ReadFull_err_iff r n :
  0 <= n ->
  (err (io.ReadFull r n) = None <-> n <= Slice.len (bytes_of r)).
Proof.
  intros H0; split.
  - intros E. destruct (Z.le_gt_cases n (Slice.len (bytes_of r))); [assumption|].
    destruct (ReadFull_short r n ltac:(lia)) as (_ & _ & E').
    rewrite E' in E; discriminate.
  - intros H; apply ReadFull_enough; lia.
Qed.

End ReadFullFacts.

(* ------------------------------------------------------------------ *)
(** * Decoding one frame *)

Section ReadFrameFacts.

Lemma len_firstn {A} (l : list A) k :
  0 <= k <= Slice.len l -> Slice.len (firstn (Z.to_nat k) l) = k.
Proof. unfold Slice.len; intros H; rewrite length_firstn; lia. Qed.

Lemma len_skipn {A} (l : list A) k :
  0 <= k <= Slice.len l ->
  Slice.len (skipn (Z.to_nat k) l) = Slice.len l - k.
Proof. unfold Slice.len; intros H; rewrite length_skipn; lia. Qed.

Lemma header_range bs L : header bs = Some L -> 0 <= L < 65536.
Proof. apply Uint16_range. Qed.

Lemma header_Some bs :
  2 <= Slice.len bs -> exists L, header bs = Some L.
Proof.
  unfold Slice.len, header.
  destruct bs as [|b0 [|b1 tl]]; cbn [length]; try lia.
  intros _; cbn; eauto.
Qed.

(** The stream fails inside the header. *)
Lemma readFrame_short_header conn :
  Slice.len (bytes_of conn) < 2 ->
  exists e conn', readFrame conn = (DecodeErr e, conn').
Proof.
  intros Hs; unfold readFrame.
  pose proof (len_make bufSize ltac:(unfold bufSize; lia)) as Hd.
  set (data := Slice.make bufSize) in *; clearbody data.
  unfold bufSize in Hd.
  rewrite upto_Some by lia.
  rewrite len_firstn by lia.
  destruct (ReadFull_short conn 2 Hs) as (_ & _ & E).
  rewrite E; eauto.
Qed.

(** [readFrame] once the two header bytes have arrived, with the buffer
    arithmetic done: the second [ReadFull] asks for exactly [L] bytes and
    the slice published is what it stored. *)
Lemma readFrame_eq conn L :
  2 <= Slice.len (bytes_of conn) ->
  header (bytes_of conn) = Some L ->
  let r1 := io.ReadFull conn 2 in
  let r2 := io.ReadFull (rest r1) L in
  readFrame conn
  = if L <=? 0 then (DecodeZero, rest r1)
    else match err r2 with
         | Some e => (DecodeErr e, rest r2)
         | None => (DecodeFrame (got r2), rest r2)
         end.
Proof.
  intros H2 HL r1 r2.
  pose proof (header_range _ _ HL) as HLr.
  unfold readFrame.
  pose proof (len_make bufSize ltac:(unfold bufSize; lia)) as Hd.
  set (data := Slice.make bufSize) in *; clearbody data.
  unfold bufSize in Hd.
  rewrite upto_Some by lia.
  rewrite len_firstn by lia.
  destruct (ReadFull_enough conn 2 ltac:(lia)) as (E1 & G1 & R1 & F1).
  fold r1 in E1, G1, R1, F1 |- *.
  rewrite E1.
  assert (Hg1 : length (got r1) = 2%nat).
  { rewrite G1, length_firstn. unfold Slice.len in H2. lia. }
  assert (Hd1 : Slice.len (Slice.fill data 0 (got r1)) = 65535)
    by (rewrite len_fill; lia).
  assert (P1 : firstn (Z.to_nat 2) (Slice.fill data 0 (got r1))
               = firstn 2 (bytes_of conn)).
  { change (Z.to_nat 2) with 2%nat. rewrite <- Hg1 at 1.
    rewrite fill_0_prefix by (unfold Slice.len in Hd; lia).
    exact G1. }
  rewrite upto_Some by lia.
  rewrite P1. unfold header in HL; rewrite HL.
  destruct (Z.leb_spec L 0) as [|Hpos]; [reflexivity|].
  rewrite upto_Some by lia. rewrite len_firstn by lia.
  fold r2.
  destruct (err r2) as [e|] eqn:E2; [reflexivity|].
  apply ReadFull_err_iff in E2; [|lia].
  destruct (ReadFull_enough (rest r1) L ltac:(lia)) as (_ & G2 & _).
  fold r2 in G2.
  assert (Hg2 : length (got r2) = Z.to_nat L).
  { rewrite G2, length_firstn. unfold Slice.len in E2. lia. }
  rewrite upto_Some
    by (rewrite len_fill by (rewrite Hd1; lia); lia).
  rewrite <- Hg2.
  rewrite fill_0_prefix
    by (rewrite fill_length; unfold Slice.len in Hd; lia).
  reflexivity.
Qed.

(** What [readFrame] does once the two header bytes have arrived. *)
Lemma readFrame_header conn L :
  header (bytes_of conn) = Some L ->
  2 <= Slice.len (bytes_of conn) ->
  let body := skipn 2 (bytes_of conn) in
  (L = 0 ->
     exists conn', readFrame conn = (DecodeZero, conn')
                   /\ bytes_of conn' = body)
  /\ (0 < L -> Slice.len body < L ->
        exists e conn', readFrame conn = (DecodeErr e, conn'))
  /\ (0 < L -> L <= Slice.len body ->
        exists conn',
          readFrame conn = (DecodeFrame (firstn (Z.to_nat L) body), conn')
          /\ bytes_of conn' = skipn (Z.to_nat L) body
          /\ fault conn' = fault conn).
Proof.
  intros HL H2 body.
  pose proof (header_range _ _ HL) as HLr.
  rewrite (readFrame_eq conn L H2 HL).
  destruct (ReadFull_enough conn 2 ltac:(lia)) as (E1 & G1 & R1 & F1).
  set (r1 := io.ReadFull conn 2) in *.
  change (Z.to_nat 2) with 2%nat in R1; fold body in R1.
  repeat split.
  - intros ->. cbn [Z.leb Z.compare]. eauto.
  - intros Hpos Hshort.
    destruct (Z.leb_spec L 0); [lia|].
    destruct (ReadFull_short (rest r1) L ltac:(rewrite R1; lia))
      as (_ & _ & E2).
    rewrite E2; eauto.
  - intros Hpos Hlong.
    destruct (Z.leb_spec L 0); [lia|].
    destruct (ReadFull_enough (rest r1) L ltac:(rewrite R1; lia))
      as (E2 & G2 & R2 & F2).
    rewrite E2.
    exists (rest (io.ReadFull (rest r1) L));
      rewrite G2, R2, R1, F2, F1; auto.
Qed.

End ReadFrameFacts.

(* ------------------------------------------------------------------ *)
(** * The pool *)

Section PoolFacts.

Lemma Equal_true a b : bytes.Equal a b = true <-> a = b.
Proof.
  unfold bytes.Equal; destruct (list_eq_dec Byte.byte_eq_dec a b);
    split; intros; congruence.
Qed.

Lemma Equal_false a b : bytes.Equal a b = false <-> a <> b.
Proof.
  unfold bytes.Equal; destruct (list_eq_dec Byte.byte_eq_dec a b);
    split; intros; congruence.
Qed.

Lemma Equal_refl a : bytes.Equal a a = true.
Proof. apply Equal_true; reflexivity. Qed.

(** [Remove] keeps, in order, the members with another handle. *)
Lemma Remove_loop_kept l uuid : forall connection kept,
  snd (Pool.Remove_loop l uuid connection kept)
  = kept ++ filter (fun x => negb (bytes.Equal (ID x) uuid)) l.
Proof.
  induction l as [|x l IH]; intros connection kept; cbn.
  - rewrite app_nil_r; reflexivity.
  - destruct (bytes.Equal (ID x) uuid); cbn; rewrite IH.
    + reflexivity.
    + rewrite <- app_assoc; reflexivity.
Qed.

Lemma Remove_loop_absent l uuid : forall connection kept,
  (forall x, In x l -> ID x <> uuid) ->
  Pool.Remove_loop l uuid connection kept = (connection, kept ++ l).
Proof.
  induction l as [|x l IH]; intros connection kept Hall; cbn.
  - rewrite app_nil_r; reflexivity.
  - destruct (bytes.Equal (ID x) uuid) eqn:E.
    + apply Equal_true in E. exfalso; apply (Hall x); cbn; auto.
    + rewrite IH by (intros y Hy; apply Hall; cbn; auto).
      rewrite <- app_assoc; reflexivity.
Qed.

Lemma Remove_loop_split before conn after : forall connection kept,
  (forall x, In x before -> ID x <> ID conn) ->
  (forall x, In x after -> ID x <> ID conn) ->
  Pool.Remove_loop (before ++ conn :: after) (ID conn) connection kept
  = (Some conn, kept ++ before ++ after).
Proof.
  induction before as [|b before IH]; intros connection kept Hb Ha; cbn.
  - rewrite Equal_refl, Remove_loop_absent by exact Ha; reflexivity.
  - destruct (bytes.Equal (ID b) (ID conn)) eqn:E.
    + apply Equal_true in E. exfalso; apply (Hb b); cbn; auto.
    + rewrite IH by (try exact Ha; intros y Hy; apply Hb; cbn; auto).
      rewrite <- app_assoc; reflexivity.
Qed.

(** With no two members sharing a handle, removing a member's handle
    returns that member and takes exactly it out of the sequence. *)
Lemma Remove_member c conn :
  NoDup (map ID c) -> In conn c ->
  exists before after,
    c = before ++ conn :: after
    /\ Pool.Remove c (ID conn) = (Some conn, before ++ after).
Proof.
  intros Hnd Hin.
  destruct (in_split conn c Hin) as (before & after & ->).
  exists before, after; split; [reflexivity|].
  rewrite map_app in Hnd; cbn [map] in Hnd.
  pose proof (NoDup_remove_2 _ _ _ Hnd) as Hni.
  unfold Pool.Remove; rewrite Remove_loop_split; [reflexivity| |].
  - intros x Hx E; apply Hni, in_or_app; left.
    rewrite <- E; apply in_map; exact Hx.
  - intros x Hx E; apply Hni, in_or_app; right.
    rewrite <- E; apply in_map; exact Hx.
Qed.

(** A second [Remove] of the same handle finds nothing and changes
    nothing. *)
Lemma Remove_idempotent c uuid :
  Pool.Remove (snd (Pool.Remove c uuid)) uuid
  = (None, snd (Pool.Remove c uuid)).
Proof.
  unfold Pool.Remove at 2 3; rewrite Remove_loop_kept; cbn [app].
  unfold Pool.Remove; rewrite Remove_loop_absent; [reflexivity|].
  intros x Hx; apply filter_In in Hx; destruct Hx as [_ Hx].
  apply negb_true_iff, Equal_false in Hx; exact Hx.
Qed.

(** A member added under a handle new to the pool is the one a later
    [RemoveAndClose] of that handle takes out and closes. *)
Lemma RemoveAndClose_added pool n conn fresh :
  ~ In fresh (map ID pool) ->
  Pool.RemoveAndClose (pool ++ [mkConnection conn fresh]) n fresh
  = (pool, net_close n conn).
Proof.
  intros Hfresh; unfold Pool.RemoveAndClose, Pool.Remove.
  change fresh with (ID (mkConnection conn fresh)) at 2.
  rewrite Remove_loop_split.
  - rewrite app_nil_r; reflexivity.
  - intros x Hx E; apply Hfresh; cbn [ID] in E; rewrite <- E.
    apply in_map; exact Hx.
  - intros x [].
Qed.



(** Handles stay pairwise distinct: [Add] keeps them so when the handle
    drawn is new, and [Remove] only takes members out. *)
Lemma Add_NoDup c conn fresh :
  NoDup (map ID c) -> ~ In fresh (map ID c) ->
  NoDup (map ID (fst (Pool.Add c conn fresh))).
Proof.
  intros Hnd Hfresh; unfold Pool.Add; cbn [fst].
  rewrite map_app; cbn [map NewConnection ID].
  apply NoDup_app; [exact Hnd | repeat constructor; intros [] |].
  intros u Hu [<-|[]]; contradiction.
Qed.

Lemma filter_map_NoDup {A B} (f : A -> B) (keep : A -> bool) l :
  NoDup (map f l) -> NoDup (map f (filter keep l)).
Proof.
  induction l as [|x l IH]; cbn; intros Hnd; [constructor|].
  inversion Hnd as [|? ? Hni Hnd']; subst.
  destruct (keep x); cbn; [constructor|]; auto.
  intros Hin; apply Hni.
  apply in_map_iff in Hin; destruct Hin as (y & Ey & Hy).
  apply filter_In in Hy; destruct Hy as [Hy _].
  rewrite <- Ey; apply in_map; exact Hy.
Qed.

Lemma Remove_NoDup c uuid :
  NoDup (map ID c) -> NoDup (map ID (snd (Pool.Remove c uuid))).
Proof.
  intros Hnd; unfold Pool.Remove; rewrite Remove_loop_kept.
  cbn [app]; apply filter_map_NoDup; exact Hnd.
Qed.

Lemma Rand_In c draw conn : Pool.Rand c draw = Some conn -> In conn c.
Proof.
  unfold Pool.Rand; destruct (Slice.len c <=? 0); [discriminate|].
  apply nth_error_In.
Qed.

Lemma Rand_empty draw : Pool.Rand [] draw = None.
Proof. reflexivity. Qed.

(** On a pool with members the pick always returns one. *)
Lemma Rand_nonempty c draw :
  c <> [] -> exists conn, Pool.Rand c draw = Some conn.
Proof.
  intros Hne; unfold Pool.Rand, Slice.len, Pool.IntN.
  destruct c as [|x c']; [congruence|].
  destruct (Z.leb_spec (Z.of_nat (length (x :: c'))) 0) as [H|H];
    [cbn [length] in H; lia|].
  destruct (nth_error (x :: c') (draw mod length (x :: c'))) eqn:E;
    [eauto|].
  apply nth_error_None in E.
  pose proof (Nat.mod_upper_bound draw (length (x :: c'))
                ltac:(cbn [length]; lia)).
  lia.
Qed.

Lemma RemoveAndCloseAll_closes c n :
  Pool.RemoveAndCloseAll c n
  = ([], mkNet (closedConns n ++ map Conn c) (wire n)).
Proof.
  unfold Pool.RemoveAndCloseAll; f_equal.
  revert n; induction c as [|x c IH]; intros n; cbn.
  - rewrite app_nil_r; destruct n; reflexivity.
  - rewrite IH; cbn; rewrite <- app_assoc; reflexivity.
Qed.

End PoolFacts.

(* ------------------------------------------------------------------ *)
(** * The framing codec: round trip and decoding errors *)

Section Codec.

Lemma header_frame p tail :
  Slice.len p <= 65535 -> header (frame p ++ tail) = Some (Slice.len p).
Proof.
  intros Hp; unfold header, frame, BigEndian.PutUint16.
  cbn [app firstn].
  pose proof (len_nonneg p).
  rewrite uint16_small by lia.
  apply (Uint16_PutUint16 (Slice.len p) []); lia.
Qed.

Lemma len_frame p : Slice.len (frame p) = 2 + Slice.len p.
Proof. unfold frame; rewrite len_app; reflexivity. Qed.

Lemma skipn_frame p tail : skipn 2 (frame p ++ tail) = p ++ tail.
Proof. reflexivity. Qed.

(** A frame that [readFrame] returns is never short: it has exactly the
    length its header announces and is followed in the stream by what
    the carrier has left. *)
Lemma readFrame_frame_inv conn p conn' :
  readFrame conn = (DecodeFrame p, conn') ->
  exists L,
    header (bytes_of conn) = Some L /\ 0 < L /\ Slice.len p = L
    /\ bytes_of conn = firstn 2 (bytes_of conn) ++ p ++ bytes_of conn'.
Proof.
  intros E.
  destruct (Z.lt_ge_cases (Slice.len (bytes_of conn)) 2) as [Hs|H2].
  - destruct (readFrame_short_header conn Hs) as (e & c1 & E').
    congruence.
  - destruct (header_Some _ H2) as (L & HL).
    pose proof (header_range _ _ HL) as HLr.
    destruct (readFrame_header conn L HL H2) as (Hz & Hshort & Hok).
    exists L; split; [exact HL|].
    destruct (Z.eq_dec L 0) as [->|Hnz].
    + destruct (Hz eq_refl) as (c1 & E' & _).
      congruence.
    + destruct (Z.lt_ge_cases (Slice.len (skipn 2 (bytes_of conn))) L)
        as [Hlt|Hge].
      * destruct (Hshort ltac:(lia) Hlt) as (e & c1 & E').
        congruence.
      * destruct (Hok ltac:(lia) ltac:(lia)) as (c1 & E' & Hb & _).
        rewrite E' in E; injection E as <- <-.
        split; [lia|]; split.
        -- apply len_firstn; split; [lia | exact Hge].
        -- rewrite Hb, firstn_skipn, firstn_skipn; reflexivity.
Qed.

End Codec.




(* ------------------------------------------------------------------ *)
(** * The TUN reader *)

Lemma from_Some data lo :
  0 <= lo <= Slice.len data ->
  Slice.from data lo = Some (skipn (Z.to_nat lo) data).
Proof.
  intros [H0 H1]; unfold Slice.from.
  apply Z.leb_le in H0, H1; rewrite H0, H1; reflexivity.
Qed.

Lemma publish_open c q data :
  closed (Engine.queue c q) = false ->
  Engine.publish c q data
  = if Slice.len (buf (Engine.queue c q)) <? cap (Engine.queue c q)
    then (Continue, Engine.pushed c q data)
    else (Continue, c).
Proof.
  intros Ho; unfold Engine.publish, chan.offer, Engine.pushed.
  rewrite Ho.
  destruct (Slice.len (buf (Engine.queue c q)) <? cap (Engine.queue c q));
    reflexivity.
Qed.

Lemma publish_closed c q data :
  closed (Engine.queue c q) = true -> Engine.publish c q data = (Panic, c).
Proof.
  intros Hc; unfold Engine.publish, chan.offer; rewrite Hc; reflexivity.
Qed.

(** Whatever [publish] does, the engine afterwards is the one before or
    the one with [data] appended to the queue. *)
Lemma publish_cases c q data :
  snd (Engine.publish c q data) = c
  \/ snd (Engine.publish c q data) = Engine.pushed c q data.
Proof.
  unfold Engine.publish, chan.offer, Engine.pushed.
  destruct (closed (Engine.queue c q)); [left; reflexivity|].
  destruct (Slice.len (buf (Engine.queue c q)) <? cap (Engine.queue c q));
    [right | left]; reflexivity.
Qed.

(** The reader's pass on a read that returned a positive [size]: the slice
    [data[:2+size]] exists only when [size <= 65533], and it is then a whole
    frame whose header is [size]. *)
Lemma handleDevicePacket_body_positive c size stored :
  0 < size ->
  (65533 < size ->
     Engine.handleDevicePacket_body c (TunData size stored) = (Panic, c))
  /\ (size <= 65533 ->
      exists fr,
        Engine.handleDevicePacket_body c (TunData size stored)
        = Engine.publish c DeviceToRemote fr
        /\ header fr = Some size /\ Slice.len fr = 2 + size).
Proof.
  intros Hpos; unfold Engine.handleDevicePacket_body.
  pose proof (len_make bufSize ltac:(unfold bufSize; lia)) as Hd.
  set (data := Slice.make bufSize) in *; clearbody data.
  unfold bufSize in Hd.
  rewrite from_Some by lia.
  destruct (Z.leb_spec size 0) as [|_]; [lia|].
  assert (Hd1 : Slice.len (Slice.fill data 2 stored) = 65535)
    by (rewrite len_fill; lia).
  rewrite upto_Some by lia.
  set (hdr := BigEndian.PutUint16 (BigEndian.uint16 size)).
  assert (Hd2 : Slice.len (Slice.fill (Slice.fill data 2 stored) 0 hdr)
                = 65535) by (rewrite len_fill; lia).
  split; intros Hs.
  - rewrite upto_None by lia; reflexivity.
  - rewrite upto_Some by lia.
    eexists; split; [reflexivity|]; split.
    + unfold header.
      rewrite firstn_firstn, Nat.min_l by lia.
      change 2%nat with (length hdr) at 1.
      rewrite fill_0_prefix
        by (rewrite fill_length; unfold Slice.len in Hd; cbn [length hdr];
            unfold hdr, BigEndian.PutUint16; cbn [length]; lia).
      unfold hdr; rewrite uint16_small by lia.
      apply (Uint16_PutUint16 size []); lia.
    + apply len_firstn; lia.
Qed.

(** When the driver returns the length of what it stored, at most 65533
    bytes, the slice published is the frame of those bytes. *)
Lemma handleDevicePacket_body_frame c stored :
  1 <= Slice.len stored <= 65533 ->
  Engine.handleDevicePacket_body c (TunData (Slice.len stored) stored)
  = Engine.publish c DeviceToRemote (frame stored).
Proof.
  intros Hs; unfold Engine.handleDevicePacket_body.
  pose proof (len_make bufSize ltac:(unfold bufSize; lia)) as Hd.
  set (data := Slice.make bufSize) in *; clearbody data.
  unfold bufSize in Hd.
  rewrite from_Some by lia.
  destruct (Z.leb_spec (Slice.len stored) 0) as [|_]; [lia|].
  assert (Hd1 : Slice.len (Slice.fill data 2 stored) = 65535)
    by (rewrite len_fill; lia).
  rewrite upto_Some by lia.
  unfold BigEndian.PutUint16 at 1.
  rewrite upto_Some by (rewrite len_fill; lia).
  replace (Z.to_nat (2 + Slice.len stored)) with (2 + length stored)%nat
    by (unfold Slice.len; lia).
  rewrite fill_header_payload by (unfold Slice.len in *; lia).
  reflexivity.
Qed.



Lemma wellFramed_intro fr L :
  header fr = Some L -> 1 <= L -> Slice.len fr = 2 + L ->
  wellFramed fr = true.
Proof.
  intros HL H1 Hlen; unfold wellFramed; rewrite HL.
  apply andb_true_intro; split; [apply Z.leb_le | apply Z.eqb_eq];
    assumption.
Qed.

Lemma handleDevicePacket_body_nonpositive c size stored :
  size <= 0 ->
  Engine.handleDevicePacket_body c (TunData size stored) = (Continue, c).
Proof.
  intros Hs; unfold Engine.handleDevicePacket_body.
  pose proof (len_make bufSize ltac:(unfold bufSize; lia)) as Hd.
  set (data := Slice.make bufSize) in *; clearbody data.
  unfold bufSize in Hd.
  rewrite from_Some by lia.
  destruct (Z.leb_spec size 0); [reflexivity | lia].
Qed.

Lemma handleDevicePacket_body_err c :
  Engine.handleDevicePacket_body c TunErr = (Break, c).
Proof.
  unfold Engine.handleDevicePacket_body.
  pose proof (len_make bufSize ltac:(unfold bufSize; lia)) as Hd.
  set (data := Slice.make bufSize) in *; clearbody data.
  unfold bufSize in Hd.
  rewrite from_Some by lia; reflexivity.
Qed.

(** One pass of [for guard { body }] that ends in [continue]. *)
Lemma loop_continue {St In} (guard : St -> bool) body (i : In) more s s' :
  guard s = true -> body s i = (Continue, s') ->
  loop guard body (i :: more) s = loop guard body more s'.
Proof. intros Hg Hb; cbn [loop]; rewrite Hg, Hb; reflexivity. Qed.

Lemma loop_stopped {St In} (guard : St -> bool) body (ins : list In) s :
  guard s = false -> loop guard body ins s = (Stopped, s).
Proof. intros Hg; destruct ins; cbn [loop]; rewrite Hg; reflexivity. Qed.

(** C2, the buffer as the code allocates it.  The reader's buffer is
    [make([]byte, 0xFFFF)]: 65535 bytes, not 2 + 65535; the window
    [data[2:]] handed to the driver has 65533 bytes, and the slice
    [data[:2+n]] does not exist for [n = 65534].  So for a datagram of
    65534 bytes, of which the driver can store the first 65533 and report
    that many, the slice published has 65535 bytes, not 2 + 65534. *)
Lemma reader_buffer_counterexample :
  Slice.len (Slice.make bufSize) = 65535
  /\ option_map Slice.len (Slice.from (Slice.make bufSize) 2) = Some 65533
  /\ Slice.upto (Slice.make bufSize) (2 + 65534) = None
  /\ Slice.len (repeat x01 (Z.to_nat 65534)) = 65534
  /\ map Slice.len
         (buf (Engine.deviceToRemoteChannel
                 (snd (Engine.handleDevicePacket_body
                         (newEngine (mkConfig [] "server" 1 1 4 4))
                         (TunData 65533 (repeat x01 (Z.to_nat 65534)))))))
     = [65535].
Proof. vm_compute. repeat split. Qed.

(** The send in general against the send that finds no receiver. *)
Lemma send_no_receiver ch data : chan.send false ch data = chan.offer ch data.
Proof. reflexivity. Qed.

(** On a buffer with room, which is where a receiver can be parked on a
    buffered channel, the send does not depend on the receiver. *)
Lemma send_buffered parked ch data :
  (parked = true -> Slice.len (buf ch) < cap ch) ->
  chan.send parked ch data = chan.offer ch data.
Proof.
  intros Hp; unfold chan.send, chan.offer.
  destruct (closed ch); [reflexivity|].
  destruct parked; [|reflexivity].
  destruct (Z.ltb_spec (Slice.len (buf ch)) (cap ch)) as [_|Hge];
    [reflexivity | specialize (Hp eq_refl); lia].
Qed.

Lemma publish_with_cases parked c q data :
  Engine.publish_with parked c q data
  = if closed (Engine.queue c q) then (Panic, c)
    else if parked || (Slice.len (buf (Engine.queue c q))
                       <? cap (Engine.queue c q))
         then (Continue, Engine.pushed c q data)
         else (Continue, c).
Proof.
  unfold Engine.publish_with, chan.send, Engine.pushed.
  destruct (closed (Engine.queue c q)); [reflexivity|].
  destruct parked; [reflexivity|]; cbn [orb].
  destruct (Slice.len (buf (Engine.queue c q)) <? cap (Engine.queue c q));
    reflexivity.
Qed.

Lemma publish_with_buffered parked c q data :
  (parked = true
   -> Slice.len (buf (Engine.queue c q)) < cap (Engine.queue c q)) ->
  Engine.publish_with parked c q data = Engine.publish c q data.
Proof.
  intros Hp; unfold Engine.publish_with, Engine.publish.
  rewrite (send_buffered parked _ data Hp); reflexivity.
Qed.

Lemma handleDevicePacket_step_err parked c :
  Engine.handleDevicePacket_step parked c TunErr = (Break, c).
Proof.
  unfold Engine.handleDevicePacket_step.
  pose proof (len_make bufSize ltac:(unfold bufSize; lia)) as Hd.
  set (data := Slice.make bufSize) in *; clearbody data.
  unfold bufSize in Hd.
  rewrite from_Some by lia; reflexivity.
Qed.

Lemma handleDevicePacket_step_nonpositive parked c size stored :
  size <= 0 ->
  Engine.handleDevicePacket_step parked c (TunData size stored)
  = (Continue, c).
Proof.
  intros Hs; unfold Engine.handleDevicePacket_step.
  pose proof (len_make bufSize ltac:(unfold bufSize; lia)) as Hd.
  set (data := Slice.make bufSize) in *; clearbody data.
  unfold bufSize in Hd.
  rewrite from_Some by lia.
  destruct (Z.leb_spec size 0); [reflexivity | lia].
Qed.

Lemma handleDevicePacket_step_frame parked c stored :
  1 <= Slice.len stored <= 65533 ->
  Engine.handleDevicePacket_step parked c
                                 (TunData (Slice.len stored) stored)
  = Engine.publish_with parked c DeviceToRemote (frame stored).
Proof.
  intros Hs; unfold Engine.handleDevicePacket_step.
  pose proof (len_make bufSize ltac:(unfold bufSize; lia)) as Hd.
  set (data := Slice.make bufSize) in *; clearbody data.
  unfold bufSize in Hd.
  rewrite from_Some by lia.
  destruct (Z.leb_spec (Slice.len stored) 0) as [|_]; [lia|].
  assert (Hd1 : Slice.len (Slice.fill data 2 stored) = 65535)
    by (rewrite len_fill; lia).
  rewrite upto_Some by lia.
  unfold BigEndian.PutUint16 at 1.
  rewrite upto_Some by (rewrite len_fill; lia).
  replace (Z.to_nat (2 + Slice.len stored)) with (2 + length stored)%nat
    by (unfold Slice.len; lia).
  rewrite fill_header_payload by (unfold Slice.len in *; lia).
  reflexivity.
Qed.

(** The pass in general is the pass of the loops whenever a parked worker
    means an offer that finds room, as on every buffered queue. *)
Lemma handleDevicePacket_step_body parked c r :
  (parked = true
   -> Slice.len (buf (Engine.deviceToRemoteChannel c))
      < cap (Engine.deviceToRemoteChannel c)) ->
  Engine.handleDevicePacket_step parked c r
  = Engine.handleDevicePacket_body c r.
Proof.
  intros Hp.
  unfold Engine.handleDevicePacket_step, Engine.handleDevicePacket_body.
  set (data := Slice.make bufSize); clearbody data.
  destruct (Slice.from data 2); [|reflexivity].
  destruct r as [|size stored]; [reflexivity|].
  destruct (size <=? 0); [reflexivity|].
  destruct (Slice.upto (Slice.fill data 2 stored) 2); [|reflexivity].
  destruct (Slice.upto _ (2 + size)); [|reflexivity].
  apply publish_with_buffered; exact Hp.
Qed.

(** C2, as the code has it.  A pass of the TUN reader, on any engine and
    whether or not a worker is parked on the outbound queue.  The buffer
    has 65535 bytes, so the driver can store at most 65533 at offset 2.  A
    read error ends the loop; a length that is not positive starts the next
    pass with nothing published; for a datagram of [n] bytes,
    [1 <= n <= 65533], the slice offered is the two big-endian bytes of [n]
    followed by the datagram.  The offer does not block: the slice is
    queued when a worker is parked in its receive or the buffer has room,
    and dropped otherwise, and either way the pass ends in [continue]; on a
    queue that [Close] has already closed the offer panics.  On a buffered
    queue, where a worker parks only on an empty buffer, this is the pass
    the loops of both engines run: they go on to the next read while
    [status] is true, and stop when it is false. *)
Theorem handleDevicePacket_pass (c : Engine.t) (parked : bool) :
  let q := Engine.deviceToRemoteChannel c in
  Engine.handleDevicePacket_step parked c TunErr = (Break, c)
  /\ (forall size st, size <= 0 ->
        Engine.handleDevicePacket_step parked c (TunData size st)
        = (Continue, c))
  /\ (forall stored, 1 <= Slice.len stored <= 65533 ->
        Engine.handleDevicePacket_step parked c
                                       (TunData (Slice.len stored) stored)
        = if closed q then (Panic, c)
          else if parked || (Slice.len (buf q) <? cap q)
               then (Continue,
                     Engine.pushed c DeviceToRemote (frame stored))
               else (Continue, c))
  /\ ((parked = true -> Slice.len (buf q) < cap q) ->
      forall r,
        Engine.handleDevicePacket_step parked c r
        = Engine.handleDevicePacket_body c r)
  /\ (Engine.status c = true ->
      forall r c', Engine.handleDevicePacket_body c r = (Continue, c') ->
      forall rs ln n,
        Server.handleDevicePacket (r :: rs) (Server.mk c ln)
        = Server.handleDevicePacket rs (Server.mk c' ln)
        /\ Client.handleDevicePacket (r :: rs) (Client.mk c n)
           = Client.handleDevicePacket rs (Client.mk c' n))
  /\ (Engine.status c = false ->
      forall rs ln n,
        Server.handleDevicePacket rs (Server.mk c ln)
        = (Stopped, Server.mk c ln)
        /\ Client.handleDevicePacket rs (Client.mk c n)
           = (Stopped, Client.mk c n)).
Proof.
  intros q.
  split; [apply handleDevicePacket_step_err|].
  split; [intros; apply handleDevicePacket_step_nonpositive; assumption|].
  split.
  { intros stored Hs.
    rewrite handleDevicePacket_step_frame by exact Hs.
    apply publish_with_cases. }
  split.
  { intros Hp r; apply handleDevicePacket_step_body; exact Hp. }
  split.
  - intros Hst r c' Hb rs ln n.
    unfold Server.handleDevicePacket, Client.handleDevicePacket,
      Engine.handleDevicePacket; cbn [Server.core Client.core
                                        Server.lnClosed Client.connectionsCount].
    rewrite (loop_continue Engine.status _ r rs c c' Hst Hb); split; reflexivity.
  - intros Hst rs ln n.
    unfold Server.handleDevicePacket, Client.handleDevicePacket,
      Engine.handleDevicePacket; cbn [Server.core Client.core
                                        Server.lnClosed Client.connectionsCount].
    rewrite (loop_stopped Engine.status _ rs c Hst); split; reflexivity.
Qed.

Lemma handleDevicePacket_pass_witness :
  let c := newEngine (mkConfig [] "server" 1 1 0 0) in
  let b := newEngine (mkConfig [] "server" 1 1 1 1) in
  let fr := [x00; x03; x45; x00; x00] in
  1 <= Slice.len [x45; x00; x00] <= 65533
  /\ Engine.handleDevicePacket_step true c (TunData 3 [x45; x00; x00])
     = (Continue, Engine.pushed c DeviceToRemote fr)
  /\ Engine.handleDevicePacket_step false c (TunData 3 [x45; x00; x00])
     = (Continue, c)
  /\ Engine.handleDevicePacket_step false b (TunData 3 [x45; x00; x00])
     = (Continue, Engine.pushed b DeviceToRemote fr)
  /\ Engine.handleDevicePacket_step
       false (Engine.pushed b DeviceToRemote fr) (TunData 3 [x45; x00; x00])
     = (Continue, Engine.pushed b DeviceToRemote fr).
Proof.
  cbv zeta.
  assert (H2 : 1 <= Slice.len [x45; x00; x00] <= 65533)
    by (unfold Slice.len; cbn [length]; lia).
  split; [exact H2|]; split; [|split; [|split]].
  - exact (proj1 (proj2 (proj2
             (handleDevicePacket_pass
                (newEngine (mkConfig [] "server" 1 1 0 0)) true)))
             [x45; x00; x00] H2).
  - exact (proj1 (proj2 (proj2
             (handleDevicePacket_pass
                (newEngine (mkConfig [] "server" 1 1 0 0)) false)))
             [x45; x00; x00] H2).
  - exact (proj1 (proj2 (proj2
             (handleDevicePacket_pass
                (newEngine (mkConfig [] "server" 1 1 1 1)) false)))
             [x45; x00; x00] H2).
  - exact (proj1 (proj2 (proj2
             (handleDevicePacket_pass
                (Engine.pushed (newEngine (mkConfig [] "server" 1 1 1 1))
                               DeviceToRemote [x00; x03; x45; x00; x00])
                false)))
             [x45; x00; x00] H2).
Defined.

(* ------------------------------------------------------------------ *)
(** * No empty frame leaves the engine *)

Lemma RemoveAndClose_wire p n uuid :
  wire (snd (Pool.RemoveAndClose p n uuid)) = wire n.
Proof.
  unfold Pool.RemoveAndClose.
  destruct (Pool.Remove p uuid) as [[conn|] p']; reflexivity.
Qed.

(** [framesOnly] looks at the endpoint id, the outbound queue and what
    has been written, and at nothing else. *)
Lemma framesOnly_same c c' :
  Engine.id c' = Engine.id c ->
  buf (Engine.deviceToRemoteChannel c') = buf (Engine.deviceToRemoteChannel c) ->
  wire (Engine.net c') = wire (Engine.net c) ->
  framesOnly c -> framesOnly c'.
Proof.
  intros Hi Hb Hw [Hq Hn]; split; [rewrite Hb | rewrite Hw, Hi]; assumption.
Qed.

Lemma framesOnly_pushed c fr :
  framesOnly c -> wellFramed fr = true ->
  framesOnly (Engine.pushed c DeviceToRemote fr).
Proof.
  intros [Hq Hw] Hf; split; cbn.
  - apply Forall_app; split; [exact Hq | constructor; [exact Hf | constructor]].
  - exact Hw.
Qed.

Lemma publish_with_grows parked c q data :
  snd (Engine.publish_with parked c q data) = c
  \/ snd (Engine.publish_with parked c q data) = Engine.pushed c q data.
Proof.
  rewrite publish_with_cases.
  destruct (closed (Engine.queue c q)); [left; reflexivity|].
  destruct (parked || _); [right | left]; reflexivity.
Qed.

(** The reader's pass in general on a read that returned a positive
    [size]: what it offers is a whole frame whose header is [size]. *)
Lemma handleDevicePacket_step_positive parked c size stored :
  0 < size ->
  (65533 < size ->
     Engine.handleDevicePacket_step parked c (TunData size stored)
     = (Panic, c))
  /\ (size <= 65533 ->
      exists fr,
        Engine.handleDevicePacket_step parked c (TunData size stored)
        = Engine.publish_with parked c DeviceToRemote fr
        /\ header fr = Some size /\ Slice.len fr = 2 + size).
Proof.
  intros Hpos; unfold Engine.handleDevicePacket_step.
  pose proof (len_make bufSize ltac:(unfold bufSize; lia)) as Hd.
  set (data := Slice.make bufSize) in *; clearbody data.
  unfold bufSize in Hd.
  rewrite from_Some by lia.
  destruct (Z.leb_spec size 0) as [|_]; [lia|].
  assert (Hd1 : Slice.len (Slice.fill data 2 stored) = 65535)
    by (rewrite len_fill; lia).
  rewrite upto_Some by lia.
  set (hdr := BigEndian.PutUint16 (BigEndian.uint16 size)).
  assert (Hd2 : Slice.len (Slice.fill (Slice.fill data 2 stored) 0 hdr)
                = 65535) by (rewrite len_fill; lia).
  split; intros Hs.
  - rewrite upto_None by lia; reflexivity.
  - rewrite upto_Some by lia.
    eexists; split; [reflexivity|]; split.
    + unfold header.
      rewrite firstn_firstn, Nat.min_l by lia.
      change 2%nat with (length hdr) at 1.
      rewrite fill_0_prefix
        by (rewrite fill_length; unfold Slice.len in Hd; cbn [length hdr];
            unfold hdr, BigEndian.PutUint16; cbn [length]; lia).
      unfold hdr; rewrite uint16_small by lia.
      apply (Uint16_PutUint16 size []); lia.
    + apply len_firstn; lia.
Qed.

(** Whatever the reader's pass finds, the engine afterwards is the one
    before, or the one before with one more slice in the outbound queue,
    and that slice is a whole frame with a length of at least one. *)
Lemma reader_step_grows parked c r :
  snd (Engine.handleDevicePacket_step parked c r) = c
  \/ exists fr,
       snd (Engine.handleDevicePacket_step parked c r)
       = Engine.pushed c DeviceToRemote fr
       /\ wellFramed fr = true.
Proof.
  destruct r as [|size stored].
  - rewrite handleDevicePacket_step_err; left; reflexivity.
  - destruct (Z.le_gt_cases size 0) as [Hle|Hpos].
    + rewrite handleDevicePacket_step_nonpositive by exact Hle.
      left; reflexivity.
    + destruct (handleDevicePacket_step_positive parked c size stored
                  ltac:(lia)) as [Hbig Hfit].
      destruct (Z.le_gt_cases size 65533) as [Hs|Hs].
      * destruct (Hfit Hs) as (fr & E & HL & Hlen); rewrite E.
        destruct (publish_with_grows parked c DeviceToRemote fr)
          as [-> | ->]; [left; reflexivity|].
        right; exists fr; split; [reflexivity|].
        apply (wellFramed_intro fr size); [assumption | lia | assumption].
      * rewrite Hbig by lia; left; reflexivity.
Qed.

Lemma framesOnly_reader_step parked c r :
  framesOnly c ->
  framesOnly (snd (Engine.handleDevicePacket_step parked c r)).
Proof.
  intros Hc.
  destruct (reader_step_grows parked c r) as [-> | (fr & -> & Hf)];
    [exact Hc | apply framesOnly_pushed; assumption].
Qed.

Lemma framesOnly_reader c r :
  framesOnly c -> framesOnly (snd (Engine.handleDevicePacket_body c r)).
Proof.
  intros Hc.
  rewrite <- (handleDevicePacket_step_body false c r)
    by (intros H; discriminate H).
  apply framesOnly_reader_step; exact Hc.
Qed.

(** What a worker's pass writes: nothing, or the slice it took from the
    head of the outbound queue, whole, to one carrier. *)
Lemma worker_writes c i :
  wire (Engine.net (snd (Engine.handleDeviceToRemoteChannel_body c i)))
  = wire (Engine.net c)
  \/ exists k data more,
       buf (Engine.deviceToRemoteChannel c) = data :: more
       /\ wire (Engine.net
                  (snd (Engine.handleDeviceToRemoteChannel_body c i)))
          = wire (Engine.net c) ++ [(k, data)].
Proof.
  unfold Engine.handleDeviceToRemoteChannel_body, chan.recv.
  destruct (buf (Engine.deviceToRemoteChannel c)) as [|data more] eqn:Eb.
  - destruct (closed (Engine.deviceToRemoteChannel c)); left; reflexivity.
  - cbn [Engine.with_queue Engine.connections Engine.net].
    destruct (Pool.Rand (Engine.connections c) (Engine.draw i)) as [conn|].
    + destruct (Engine.writeOk i).
      * right; exists (Conn conn), data, more; split; reflexivity.
      * left; unfold Engine.RemoveAndClose.
        cbn [Engine.with_queue Engine.connections Engine.net].
        pose proof (RemoveAndClose_wire (Engine.connections c)
                      (Engine.net c) (ID conn)) as Hwire.
        destruct (Pool.RemoveAndClose (Engine.connections c) (Engine.net c)
                                      (ID conn)) as [p n].
        exact Hwire.
    + left; reflexivity.
Qed.

Lemma framesOnly_worker c i :
  framesOnly c ->
  framesOnly (snd (Engine.handleDeviceToRemoteChannel_body c i)).
Proof.
  intros [Hq Hw]; unfold Engine.handleDeviceToRemoteChannel_body, chan.recv.
  destruct (buf (Engine.deviceToRemoteChannel c)) as [|data more] eqn:Eb.
  - destruct (closed (Engine.deviceToRemoteChannel c)); split;
      cbn; rewrite ?Eb; auto.
  - inversion Hq as [|? ? Hd Hmore]; subst.
    cbn [Engine.with_queue Engine.connections Engine.net].
    destruct (Pool.Rand (Engine.connections c) (Engine.draw i)) as [conn|].
    + destruct (Engine.writeOk i).
      * split; cbn; [exact Hmore|].
        apply Forall_app; split;
          [exact Hw | constructor; [left; exact Hd | constructor]].
      * unfold Engine.RemoveAndClose.
        cbn [Engine.with_queue Engine.connections Engine.net].
        pose proof (RemoveAndClose_wire (Engine.connections c)
                      (Engine.net c) (ID conn)) as Hwire.
        destruct (Pool.RemoveAndClose (Engine.connections c) (Engine.net c)
                                      (ID conn)) as [p n].
        cbn [snd] in Hwire; split; cbn; [exact Hmore|].
        rewrite Hwire; exact Hw.
    + split; cbn; [exact Hmore | exact Hw].
Qed.

Lemma framesOnly_readLoop c conn :
  framesOnly c ->
  framesOnly (fst (snd (Engine.readLoop_body (c, conn) tt))).
Proof.
  intros Hc; cbn [Engine.readLoop_body].
  destruct (readFrame conn) as [[e| | |p] conn']; cbn [fst snd];
    try exact Hc.
  pose proof (publish_cases c RemoteToDevice p) as Hp.
  destruct (Engine.publish c RemoteToDevice p) as [k c'].
  cbn [snd fst] in *; destruct Hp as [-> | ->]; [exact Hc|].
  destruct Hc as [Hq Hw]; split; cbn; assumption.
Qed.

Lemma framesOnly_writer c ok :
  framesOnly c ->
  framesOnly (snd (Engine.handleRemoteToDeviceChannel_body c ok)).
Proof.
  intros [Hq Hw]; unfold Engine.handleRemoteToDeviceChannel_body, chan.recv.
  destruct (buf (Engine.remoteToDeviceChannel c)) as [|data more].
  - destruct (closed (Engine.remoteToDeviceChannel c)); split; assumption.
  - destruct ok; split; cbn; assumption.
Qed.

(** What holds before a loop and after every pass holds when the loop is
    left, however it is left. *)
Lemma loop_invariant {St In} (P : St -> Prop) (guard : St -> bool)
      (body : St -> In -> Ctl * St) :
  (forall s i, P s -> P (snd (body s i))) ->
  forall ins s, P s -> P (snd (loop guard body ins s)).
Proof.
  intros Hbody ins; induction ins as [|i ins IH]; intros s Hs; cbn [loop].
  - destruct (guard s); exact Hs.
  - destruct (guard s); [|exact Hs].
    pose proof (Hbody s i Hs) as Hs'.
    destruct (body s i) as [[| | |] s']; cbn [snd] in *;
      [apply IH; exact Hs' | exact Hs' ..].
Qed.

Lemma framesOnly_RemoveAndClose c uuid :
  framesOnly c -> framesOnly (Engine.RemoveAndClose c uuid).
Proof.
  apply framesOnly_same; try reflexivity;
    unfold Engine.RemoveAndClose;
    pose proof (RemoveAndClose_wire (Engine.connections c) (Engine.net c)
                                    uuid) as Hwire;
    destruct (Pool.RemoveAndClose (Engine.connections c) (Engine.net c) uuid)
      as [p n]; [reflexivity | reflexivity | exact Hwire].
Qed.

(** A carrier's read loop, run to its end, and the removal deferred to
    its return. *)
Lemma framesOnly_readLoop_run c conn :
  framesOnly c -> framesOnly (fst (snd (Engine.readLoop c conn))).
Proof.
  intros Hc; unfold Engine.readLoop.
  apply (loop_invariant (fun s : Engine.t * Stream => framesOnly (fst s)));
    [|exact Hc].
  intros [c0 conn0] []; apply framesOnly_readLoop.
Qed.

Lemma framesOnly_handleRemotePacket c n uuid rd :
  framesOnly c ->
  framesOnly (Client.core
                (snd (Client.handleRemotePacket (Client.mk c n) uuid rd))).
Proof.
  intros Hc; unfold Client.handleRemotePacket; cbn [Client.core].
  pose proof (framesOnly_readLoop_run c rd Hc) as Hl.
  destruct (Engine.readLoop c rd) as [x [e rd']]; cbn [fst snd] in *.
  cbn [Client.core]; apply framesOnly_RemoveAndClose; exact Hl.
Qed.

Lemma framesOnly_handleConn c ln ks rd intime fresh :
  framesOnly c ->
  framesOnly (Server.core
                (snd (Server.handleConn (Server.mk c ln) ks rd intime
                                        fresh))).
Proof.
  intros Hc; unfold Server.handleConn.
  destruct (SetReadDeadline rd intime) as [vis later].
  destruct (err (io.ReadFull vis 16)); [exact Hc|].
  cbn [Server.core Server.lnClosed].
  destruct (negb (bytes.Equal (got (io.ReadFull vis 16)) (Engine.id c)));
    [exact Hc|].
  unfold Pool.Add, NewConnection; cbn [ID].
  assert (Ha : framesOnly
                 (Engine.with_pool c
                    (Engine.connections c ++ [mkConnection ks fresh])
                    (Engine.net c))) by exact Hc.
  pose proof (framesOnly_readLoop_run _
                (ClearDeadline (rest (io.ReadFull vis 16)) later) Ha) as Hl.
  destruct (Engine.readLoop _ _) as [x [e rd']]; cbn [fst snd] in *.
  cbn [Server.core]; apply framesOnly_RemoveAndClose; exact Hl.
Qed.

(** A dial writes at most the endpoint id, and queues nothing. *)
Lemma framesOnly_doDialConn c n i :
  framesOnly c ->
  framesOnly (Client.core (snd (Client.doDialConn (Client.mk c n) i))).
Proof.
  intros Hc; unfold Client.doDialConn.
  destruct (Client.dialed i) as [conn|]; [|exact Hc].
  destruct (negb (Client.idWritten i)); [exact Hc|].
  destruct Hc as [Hq Hw]; split; cbn; [exact Hq|].
  apply Forall_app; split;
    [exact Hw | constructor; [right; reflexivity | constructor]].
Qed.

(** C9.  When a TUN read succeeds with a length that is zero or negative,
    the reader's pass ends in [continue] and leaves the engine as it was:
    nothing is published.  A pass of the reader queues at most one slice,
    and that slice is a whole frame whose header is at least one.  A worker
    writes to a carrier only the slice it took from the head of the
    outbound queue.  So in an engine whose outbound queue holds only such
    frames, what a worker writes is such a frame, and the engine stays one
    in which every queued slice and every written slice, apart from the
    endpoint id a dial writes first, is such a frame: after a pass of the
    TUN reader, of a worker, of a carrier's read loop or of the TUN
    writer, after a dial, after the initiator's read task and after the
    responder's handler.  The engine both constructors build is of this
    kind. *)
Theorem zero_length_never_published (c : Engine.t) :
  (forall parked size stored,
      size <= 0 ->
      Engine.handleDevicePacket_step parked c (TunData size stored)
      = (Continue, c)
      /\ Engine.handleDevicePacket_body c (TunData size stored)
         = (Continue, c))
  /\ (forall parked r,
        snd (Engine.handleDevicePacket_step parked c r) = c
        \/ exists fr,
             snd (Engine.handleDevicePacket_step parked c r)
             = Engine.pushed c DeviceToRemote fr
             /\ wellFramed fr = true)
  /\ (forall i,
        wire (Engine.net (snd (Engine.handleDeviceToRemoteChannel_body c i)))
        = wire (Engine.net c)
        \/ exists k data more,
             buf (Engine.deviceToRemoteChannel c) = data :: more
             /\ wire (Engine.net
                        (snd (Engine.handleDeviceToRemoteChannel_body c i)))
                = wire (Engine.net c) ++ [(k, data)])
  /\ (forall cfg, framesOnly (newEngine cfg))
  /\ (framesOnly c ->
      (forall i k data,
          wire (Engine.net (snd (Engine.handleDeviceToRemoteChannel_body c i)))
          = wire (Engine.net c) ++ [(k, data)] ->
          wellFramed data = true)
      /\ (forall parked r,
            framesOnly (snd (Engine.handleDevicePacket_step parked c r)))
      /\ (forall r, framesOnly (snd (Engine.handleDevicePacket_body c r)))
      /\ (forall i,
            framesOnly (snd (Engine.handleDeviceToRemoteChannel_body c i)))
      /\ (forall conn,
            framesOnly (fst (snd (Engine.readLoop_body (c, conn) tt))))
      /\ (forall ok,
            framesOnly (snd (Engine.handleRemoteToDeviceChannel_body c ok)))
      /\ (forall n i,
            framesOnly
              (Client.core (snd (Client.doDialConn (Client.mk c n) i))))
      /\ (forall n uuid rd,
            framesOnly
              (Client.core
                 (snd (Client.handleRemotePacket (Client.mk c n) uuid rd))))
      /\ (forall ln ks rd intime fresh,
            framesOnly
              (Server.core
                 (snd (Server.handleConn (Server.mk c ln) ks rd intime
                                         fresh))))).
Proof.
  split; [|split; [|split; [|split; [|intros Hc]]]].
  - intros parked size stored Hs; split;
      [apply handleDevicePacket_step_nonpositive
      | apply handleDevicePacket_body_nonpositive]; exact Hs.
  - intros parked r; apply reader_step_grows.
  - intros i; apply worker_writes.
  - intros cfg; split; constructor.
  - split.
    { intros i k data Hw.
      destruct (worker_writes c i) as [E | (k' & data' & more & Eb & E)].
      - rewrite E in Hw.
        apply (f_equal (@length _)) in Hw.
        rewrite length_app in Hw; cbn [length] in Hw; lia.
      - rewrite E in Hw; apply app_inv_head in Hw.
        injection Hw as _ <-.
        destruct Hc as [Hq _]; rewrite Eb in Hq.
        inversion Hq; assumption. }
    split; [intros; apply framesOnly_reader_step; exact Hc|].
    split; [intros; apply framesOnly_reader; exact Hc|].
    split; [intros; apply framesOnly_worker; exact Hc|].
    split; [intros; apply framesOnly_readLoop; exact Hc|].
    split; [intros; apply framesOnly_writer; exact Hc|].
    split; [intros; apply framesOnly_doDialConn; exact Hc|].
    split; [intros; apply framesOnly_handleRemotePacket; exact Hc|].
    intros; apply framesOnly_handleConn; exact Hc.
Qed.

Lemma zero_length_never_published_witness :
  let cl := Client.NewClient (mkConfig [x07] "client" 1 1 4 4) in
  let c := Client.core
             (snd (Client.doDialConn cl (Client.mkDialIn (Some 7%nat) true
                                                         [x01]))) in
  let c1 := snd (Engine.handleDevicePacket_body c (TunData 2 [x45; x00])) in
  Engine.connections c = [mkConnection 7%nat [x01]]
  /\ wire (Engine.net c) = [(7%nat, [x07])]
  /\ framesOnly c
  /\ Engine.handleDevicePacket_body c (TunData 0 []) = (Continue, c)
  /\ framesOnly c1
  /\ wire (Engine.net
             (snd (Engine.handleDeviceToRemoteChannel_body
                     c1 (Engine.mkWorkerIn 0 true))))
     = [(7%nat, [x07]); (7%nat, [x00; x02; x45; x00])]
  /\ wellFramed [x00; x02; x45; x00] = true.
Proof.
  cbv zeta.
  set (cl := Client.NewClient (mkConfig [x07] "client" 1 1 4 4)).
  set (c := Client.core
              (snd (Client.doDialConn cl (Client.mkDialIn (Some 7%nat) true
                                                          [x01])))).
  set (c1 := snd (Engine.handleDevicePacket_body c (TunData 2 [x45; x00]))).
  pose proof (zero_length_never_published (Client.core cl))
    as (_ & _ & _ & Hnew & Hinv).
  destruct (Hinv (Hnew (mkConfig [x07] "client" 1 1 4 4)))
    as (_ & _ & _ & _ & _ & _ & Hdial & _).
  assert (Hc : framesOnly c)
    by exact (Hdial 1 (Client.mkDialIn (Some 7%nat) true [x01])).
  pose proof (zero_length_never_published c) as (Hz & _ & _ & _ & Hinv1).
  destruct (Hinv1 Hc) as (_ & _ & Hr & _).
  assert (Hc1 : framesOnly c1) by apply Hr.
  pose proof (zero_length_never_published c1) as (_ & _ & _ & _ & Hinv2).
  destruct (Hinv2 Hc1) as (Hw & _).
  assert (Ew : wire (Engine.net
                       (snd (Engine.handleDeviceToRemoteChannel_body
                               c1 (Engine.mkWorkerIn 0 true))))
               = wire (Engine.net c1) ++ [(7%nat, [x00; x02; x45; x00])])
    by (vm_compute; reflexivity).
  split; [reflexivity|]; split; [reflexivity|]; split; [exact Hc|].
  split; [apply (Hz false 0 []); lia|]; split; [exact Hc1|].
  split; [vm_compute; reflexivity|].
  exact (Hw _ _ _ Ew).
Defined.

(* ------------------------------------------------------------------ *)
(** * The workers and the TUN writer *)

Lemma Rand_nil_iff c draw : Pool.Rand c draw = None <-> c = [].
Proof.
  split.
  - intros E; destruct c as [|x c']; [reflexivity|].
    destruct (Rand_nonempty (x :: c') draw ltac:(discriminate)) as (y & E').
    rewrite E' in E; discriminate.
  - intros ->; reflexivity.
Qed.

(** C6.  A worker's pass that has taken a framed datagram [data] from the
    outbound queue, in an engine whose [status] is true.  When the pool is
    empty, the pass ends in [continue] with only the queue changed: the
    datagram is in no queue and on no carrier.  When the pool's members
    have distinct handles and the write to the picked carrier fails, the
    pass takes exactly that carrier out of the pool, closes exactly its
    connection, writes nothing and puts nothing back in the queue.  In both
    cases the worker's loop goes on to its next pass. *)
Theorem worker_drops (c : Engine.t) (i : Engine.WorkerIn)
        (data : list byte) (ch : Chan) :
  Engine.status c = true ->
  chan.recv (Engine.deviceToRemoteChannel c) = Item data ch ->
  let c1 := Engine.with_queue c DeviceToRemote ch in
  (Engine.connections c = [] ->
     Engine.handleDeviceToRemoteChannel_body c i = (Continue, c1)
     /\ forall ins,
          Engine.handleDeviceToRemoteChannel (i :: ins) c
          = Engine.handleDeviceToRemoteChannel ins c1)
  /\ (forall conn,
        Pool.Rand (Engine.connections c) (Engine.draw i) = Some conn ->
        Engine.writeOk i = false ->
        NoDup (map ID (Engine.connections c)) ->
        exists before after,
          Engine.connections c = before ++ conn :: after
          /\ let c2 := Engine.with_pool c1 (before ++ after)
                         (net_close (Engine.net c) (Conn conn)) in
             Engine.handleDeviceToRemoteChannel_body c i = (Continue, c2)
             /\ Engine.deviceToRemoteChannel c2 = ch
             /\ wire (Engine.net c2) = wire (Engine.net c)
             /\ closedConns (Engine.net c2)
                = closedConns (Engine.net c) ++ [Conn conn]
             /\ forall ins,
                  Engine.handleDeviceToRemoteChannel (i :: ins) c
                  = Engine.handleDeviceToRemoteChannel ins c2).
Proof.
  intros Hst Hrecv c1; split.
  - intros Hempty.
    assert (Hb : Engine.handleDeviceToRemoteChannel_body c i = (Continue, c1)).
    { assert (Hr : Pool.Rand (Engine.connections c1) (Engine.draw i) = None)
        by (apply Rand_nil_iff; exact Hempty).
      unfold Engine.handleDeviceToRemoteChannel_body; rewrite Hrecv.
      cbv zeta; fold c1; rewrite Hr; reflexivity. }
    split; [exact Hb|].
    intros ins; apply (loop_continue Engine.status _ i ins c c1 Hst Hb).
  - intros conn Hrand Hfail Hnd.
    destruct (Remove_member _ conn Hnd (Rand_In _ _ _ Hrand))
      as (before & after & Hsplit & Hrm).
    exists before, after; split; [exact Hsplit|].
    cbv zeta.
    assert (Hb : Engine.handleDeviceToRemoteChannel_body c i
                 = (Continue,
                    Engine.with_pool c1 (before ++ after)
                      (net_close (Engine.net c) (Conn conn)))).
    { assert (Hr : Pool.Rand (Engine.connections c1) (Engine.draw i)
                   = Some conn) by exact Hrand.
      assert (Hc : Pool.RemoveAndClose (Engine.connections c1)
                     (Engine.net c1) (ID conn)
                   = (before ++ after,
                      net_close (Engine.net c) (Conn conn)))
        by (unfold Pool.RemoveAndClose;
            change (Engine.connections c1) with (Engine.connections c);
            rewrite Hrm; reflexivity).
      unfold Engine.handleDeviceToRemoteChannel_body; rewrite Hrecv.
      cbv zeta; fold c1; rewrite Hr, Hfail.
      unfold Engine.RemoveAndClose; rewrite Hc; reflexivity. }
    split; [exact Hb|].
    repeat split.
    intros ins; apply (loop_continue Engine.status _ i ins c _ Hst Hb).
Qed.

Lemma worker_drops_witness :
  let c0 := newEngine (mkConfig [] "server" 1 1 4 4) in
  let pool := [mkConnection 7%nat [x01]; mkConnection 9%nat [x02]] in
  let fr := [x00; x01; x45] in
  let c := Engine.pushed (Engine.with_pool c0 pool (Engine.net c0))
                         DeviceToRemote fr in
  let i := Engine.mkWorkerIn 3 false in
  Engine.status c = true
  /\ chan.recv (Engine.deviceToRemoteChannel c)
     = Item fr (Engine.deviceToRemoteChannel c0)
  /\ Pool.Rand (Engine.connections c) (Engine.draw i)
     = Some (mkConnection 9%nat [x02])
  /\ Engine.writeOk i = false
  /\ NoDup (map ID (Engine.connections c))
  /\ exists before after,
       Engine.connections c = before ++ mkConnection 9%nat [x02] :: after
       /\ Engine.handleDeviceToRemoteChannel_body c i
          = (Continue,
             Engine.with_pool c0 (before ++ after)
                              (mkNet [9%nat] [])).
Proof.
  cbv zeta.
  set (c0 := newEngine (mkConfig [] "server" 1 1 4 4)).
  set (conn := mkConnection 9%nat [x02]).
  set (c := Engine.pushed
              (Engine.with_pool c0 [mkConnection 7%nat [x01]; conn]
                                (Engine.net c0))
              DeviceToRemote [x00; x01; x45]).
  set (i := Engine.mkWorkerIn 3 false).
  assert (H1 : Engine.status c = true) by reflexivity.
  assert (H2 : chan.recv (Engine.deviceToRemoteChannel c)
               = Item [x00; x01; x45] (Engine.deviceToRemoteChannel c0))
    by reflexivity.
  assert (H3 : Pool.Rand (Engine.connections c) (Engine.draw i) = Some conn)
    by reflexivity.
  assert (H4 : Engine.writeOk i = false) by reflexivity.
  assert (H5 : NoDup (map ID (Engine.connections c))).
  { cbn. constructor.
    - intros [E|[]]; discriminate E.
    - constructor; [intros [] | constructor]. }
  repeat (split; [assumption|]).
  destruct (proj2 (worker_drops c i _ _ H1 H2) conn H3 H4 H5)
    as (before & after & Hs & Hb & _).
  exists before, after; split; [exact Hs | exact Hb].
Defined.

(** C10.  What the two consumers do with the nil slice a closed and
    empty queue yields.  A worker's pass ends in [continue] and changes
    nothing, so the worker's loop is still looping after any number of
    passes while [status] is true and returns only when [status] is false;
    the TUN writer's pass ends in [break], so its loop returns at once,
    whatever [status] is. *)
Theorem nil_asymmetry (s : Server.t) :
  (chan.recv (Engine.deviceToRemoteChannel (Server.core s)) = Nil ->
     (forall i,
         Engine.handleDeviceToRemoteChannel_body (Server.core s) i
         = (Continue, Server.core s))
     /\ (Engine.status (Server.core s) = true ->
         forall ins, Server.handleDeviceToRemoteChannel ins s = (Looping, s))
     /\ (Engine.status (Server.core s) = false ->
         forall ins, Server.handleDeviceToRemoteChannel ins s = (Stopped, s)))
  /\ (chan.recv (Engine.remoteToDeviceChannel (Server.core s)) = Nil ->
      (forall ok,
          Engine.handleRemoteToDeviceChannel_body (Server.core s) ok
          = (Break, Server.core s))
      /\ (Engine.status (Server.core s) = true ->
          forall ok ins,
            Server.handleRemoteToDeviceChannel (ok :: ins) s = (Broke, s))).
Proof.
  destruct s as [c ln]; cbn [Server.core]; split; intros Hnil.
  - assert (Hb : forall i,
               Engine.handleDeviceToRemoteChannel_body c i = (Continue, c))
      by (intros i; unfold Engine.handleDeviceToRemoteChannel_body;
          rewrite Hnil; reflexivity).
    split; [exact Hb|]; split; intros Hst ins.
    + unfold Server.handleDeviceToRemoteChannel,
        Engine.handleDeviceToRemoteChannel; cbn [Server.core Server.lnClosed].
      induction ins as [|i ins IH]; cbn [loop]; rewrite Hst; [reflexivity|].
      rewrite Hb; exact IH.
    + unfold Server.handleDeviceToRemoteChannel,
        Engine.handleDeviceToRemoteChannel; cbn [Server.core Server.lnClosed].
      rewrite loop_stopped by exact Hst; reflexivity.
  - assert (Hb : forall ok,
               Engine.handleRemoteToDeviceChannel_body c ok = (Break, c))
      by (intros ok; unfold Engine.handleRemoteToDeviceChannel_body;
          rewrite Hnil; reflexivity).
    split; [exact Hb|]; intros Hst ok ins.
    unfold Server.handleRemoteToDeviceChannel,
      Engine.handleRemoteToDeviceChannel; cbn [Server.core Server.lnClosed].
    cbn [loop]; rewrite Hst, Hb; reflexivity.
Qed.

(* ------------------------------------------------------------------ *)
(** * The responder's handler *)

(** The read loop returns: the passes allowed are never used up. *)
Lemma readLoop_fuel : forall fuel c conn,
  (length (bytes_of conn) < fuel)%nat ->
  fst (loop (fun _ : Engine.t * Stream => true) Engine.readLoop_body
            (repeat tt fuel) (c, conn)) <> Looping.
Proof.
  induction fuel as [|fuel IH]; intros c conn Hf; [lia|].
  cbn [repeat loop Engine.readLoop_body].
  destruct (readFrame conn) as [[e| | |p] conn'] eqn:E;
    [cbn [fst]; discriminate | cbn [fst]; discriminate
     | cbn [fst]; discriminate | ].
  destruct (readFrame_frame_inv _ _ _ E) as (L & HL & Hpos & Hlen & Hbs).
  assert (Hshrink : (length (bytes_of conn') < fuel)%nat).
  { apply (f_equal (@length byte)) in Hbs.
    rewrite !length_app in Hbs. unfold Slice.len in Hlen. lia. }
  destruct (Engine.publish c RemoteToDevice p) as [[| | |] c'];
    [apply IH; exact Hshrink | cbn [fst]; discriminate ..].
Qed.

Lemma readLoop_returns c conn : fst (Engine.readLoop c conn) <> Looping.
Proof. apply readLoop_fuel; lia. Qed.

(** C4.  The responder's handler on an accepted connection.  When fewer
    than 16 bytes arrive before the deadline (the stream failed or the
    three seconds passed), the 16-byte read returns an error; when 16 bytes
    arrive and differ from the configured endpoint id, the comparison
    fails.  In both cases the handler closes the connection and returns:
    the read loop is not entered, the pool and its count are what they
    were, and so is everything else in the engine but the list of closed
    connections, which has gained exactly this one. *)
Theorem handleConn_rejects (c : Server.t) (conn : NetConn) (rd : Stream)
        (intime : nat) (fresh : UUID) :
  let visible := fst (SetReadDeadline rd intime) in
  Slice.len (bytes_of visible) < 16
  \/ firstn 16 (bytes_of visible) <> Engine.id (Server.core c) ->
  let r := Server.handleConn c conn rd intime fresh in
  (Slice.len (bytes_of visible) < 16 -> fst r = AuthReadFailed)
  /\ (16 <= Slice.len (bytes_of visible) -> fst r = AuthMismatch)
  /\ snd r
     = Server.on_core
         (fun e => Engine.with_net e (net_close (Engine.net e) conn)) c
  /\ Engine.connections (Server.core (snd r))
     = Engine.connections (Server.core c)
  /\ Pool.Count (Engine.connections (Server.core (snd r)))
     = Pool.Count (Engine.connections (Server.core c))
  /\ closedConns (Engine.net (Server.core (snd r)))
     = closedConns (Engine.net (Server.core c)) ++ [conn].
Proof.
  intros visible Hrej r.
  assert (Hr : (Slice.len (bytes_of visible) < 16
                /\ r = (AuthReadFailed,
                        Server.on_core
                          (fun e => Engine.with_net
                                      e (net_close (Engine.net e) conn)) c))
               \/ (16 <= Slice.len (bytes_of visible)
                   /\ r = (AuthMismatch,
                           Server.on_core
                             (fun e => Engine.with_net
                                         e (net_close (Engine.net e) conn))
                             c))).
  { unfold r, Server.handleConn.
    destruct (SetReadDeadline rd intime) as [vis later] eqn:Ed.
    assert (Hv : visible = vis) by (unfold visible; try rewrite Ed; reflexivity).
    rewrite Hv in *.
    destruct (Z.lt_ge_cases (Slice.len (bytes_of vis)) 16) as [Hlt|Hge].
    - left; split; [exact Hlt|].
      destruct (ReadFull_short vis 16 Hlt) as (_ & _ & E).
      rewrite E; reflexivity.
    - right; split; [exact Hge|].
      destruct Hrej as [Hlt|Hne]; [lia|].
      destruct (ReadFull_enough vis 16 ltac:(lia)) as (E & G & _).
      rewrite E, G.
      change (Z.to_nat 16) with 16%nat.
      apply Equal_false in Hne; rewrite Hne; reflexivity. }
  destruct Hr as [[Hlt ->] | [Hge ->]]; cbn [fst snd];
    (split; [intros; try reflexivity; lia|]);
    (split; [intros; try reflexivity; lia|]);
    repeat split.
Qed.

Lemma handleConn_rejects_witness :
  let c := Server.NewServer (mkConfig [x01; x02] "server" 1 1 4 4) in
  let rd := mkStream [[x01]; [x03]; [x00; x01; x45]] EOF in
  (Slice.len (bytes_of (fst (SetReadDeadline rd 2))) < 16
   \/ firstn 16 (bytes_of (fst (SetReadDeadline rd 2)))
      <> Engine.id (Server.core c))
  /\ snd (Server.handleConn c 5%nat rd 2 [x09])
     = Server.on_core
         (fun e => Engine.with_net e (net_close (Engine.net e) 5%nat)) c.
Proof.
  cbv zeta.
  assert (H : Slice.len
                (bytes_of
                   (fst (SetReadDeadline
                           (mkStream [[x01]; [x03]; [x00; x01; x45]] EOF) 2)))
              < 16
              \/ firstn 16
                   (bytes_of
                      (fst (SetReadDeadline
                              (mkStream [[x01]; [x03]; [x00; x01; x45]] EOF)
                              2)))
                 <> Engine.id
                      (Server.core
                         (Server.NewServer
                            (mkConfig [x01; x02] "server" 1 1 4 4))))
    by (left; vm_compute; reflexivity).
  split; [exact H|].
  exact (proj1 (proj2 (proj2
           (handleConn_rejects
              (Server.NewServer (mkConfig [x01; x02] "server" 1 1 4 4))
              5%nat (mkStream [[x01]; [x03]; [x00; x01; x45]] EOF) 2 [x09]
              H)))).
Defined.

(** A connection that presents the endpoint id in time is served: it is
    in the pool while its read loop runs, and the loop returns. *)
Lemma handleConn_serves (c : Server.t) conn rd intime fresh :
  let visible := fst (SetReadDeadline rd intime) in
  16 <= Slice.len (bytes_of visible) ->
  firstn 16 (bytes_of visible) = Engine.id (Server.core c) ->
  exists x, fst (Server.handleConn c conn rd intime fresh) = Served x
            /\ x <> Looping.
Proof.
  intros visible Hge Hid; unfold Server.handleConn.
  destruct (SetReadDeadline rd intime) as [vis later] eqn:Ed.
  assert (Hv : visible = vis) by (unfold visible; try rewrite Ed; reflexivity).
  rewrite Hv in *.
  destruct (ReadFull_enough vis 16 ltac:(lia)) as (E & G & _).
  rewrite E, G. change (Z.to_nat 16) with 16%nat.
  rewrite Hid, Equal_refl; cbn [negb].
  destruct (Pool.Add _ conn fresh) as [p uuid].
  match goal with
  | |- context [Engine.readLoop ?e ?s] =>
    pose proof (readLoop_returns e s) as Hret;
      destruct (Engine.readLoop e s) as [x [e' s']]
  end.
  exists x; split; [reflexivity | exact Hret].
Qed.

(* ------------------------------------------------------------------ *)
(** * Shutdown *)

Lemma drain_loop_closed : forall b k fuel,
  (length b < fuel)%nat ->
  chan.drain_loop fuel (mkChan b k true) = Some (mkChan [] k true).
Proof.
  induction b as [|x b IH]; intros k fuel Hf;
    (destruct fuel as [|fuel]; [cbn in Hf; lia|]); cbn.
  - reflexivity.
  - apply IH; cbn in Hf; lia.
Qed.

Lemma drain_closed ch :
  closed ch = true -> chan.drain ch = Some (mkChan [] (cap ch) true).
Proof.
  destruct ch as [b k cl]; cbn [closed cap]; intros ->.
  unfold chan.drain; apply drain_loop_closed; cbn; lia.
Qed.

(** An open queue cannot be drained by [range]: the loop parks. *)
Lemma drain_open ch : closed ch = false -> chan.drain ch = None.
Proof.
  destruct ch as [b k cl]; cbn [closed]; intros ->; unfold chan.drain.
  cbn [buf]; generalize (S (length b)) as fuel.
  induction b as [|x b IH]; intros [|fuel]; cbn; auto.
Qed.

Lemma closeQueue_open c q :
  closed (Engine.queue c q) = false ->
  Engine.closeQueue c q
  = Some (Engine.emit
            (Engine.with_queue c q
               (mkChan (buf (Engine.queue c q)) (cap (Engine.queue c q)) true))
            (EvQueueClose q)).
Proof.
  intros Ho; unfold Engine.closeQueue, chan.close; rewrite Ho; reflexivity.
Qed.

Lemma drainQueue_closed c q :
  closed (Engine.queue c q) = true ->
  Engine.drainQueue c q
  = Some (Engine.emit
            (Engine.with_queue c q (mkChan [] (cap (Engine.queue c q)) true))
            (EvQueueDrain q)).
Proof.
  intros Hc; unfold Engine.drainQueue; rewrite drain_closed by exact Hc.
  reflexivity.
Qed.

(** The part of [Close] that both engines run after the TUN device has
    been closed. *)
Lemma Close_tail (e : Engine.t) :
  closed (Engine.deviceToRemoteChannel e) = false ->
  closed (Engine.remoteToDeviceChannel e) = false ->
  (do e1 <- Engine.closeQueue e DeviceToRemote;
   do e2 <- Engine.closeQueue e1 RemoteToDevice;
   let e3 := Engine.RemoveAndCloseAll e2 in
   let e4 := Engine.Wait e3 in
   let e5 := Engine.RemoveAndCloseAll e4 in
   do e6 <- Engine.drainQueue e5 DeviceToRemote;
   do e7 <- Engine.drainQueue e6 RemoteToDevice;
   Some e7)
  = Some (Engine.mk (Engine.id e) (Engine.device e) (Engine.status e) []
            (mkChan [] (cap (Engine.deviceToRemoteChannel e)) true)
            (mkChan [] (cap (Engine.remoteToDeviceChannel e)) true)
            (mkNet (closedConns (Engine.net e)
                    ++ map Conn (Engine.connections e))
                   (wire (Engine.net e)))
            (Engine.trace e
             ++ [EvQueueClose DeviceToRemote; EvQueueClose RemoteToDevice;
                 EvCloseAll; EvWait; EvCloseAll;
                 EvQueueDrain DeviceToRemote; EvQueueDrain RemoteToDevice])).
Proof.
  intros H1 H2.
  rewrite closeQueue_open by exact H1.
  rewrite closeQueue_open by exact H2.
  cbv zeta; unfold Engine.RemoveAndCloseAll, Engine.Wait.
  rewrite !RemoveAndCloseAll_closes.
  rewrite drainQueue_closed by reflexivity.
  rewrite drainQueue_closed by reflexivity.
  destruct e as [i d st p [b1 k1 c1] [b2 k2 c2] [cl w] tr].
  cbn; unfold Engine.emit; cbn.
  rewrite ?app_nil_r, <- ?app_assoc; reflexivity.
Qed.

(** Once [Close] has closed the inbound queue, a read loop that decodes a
    frame from a carrier still open offers it to a closed channel. *)
Lemma readLoop_body_closed_queue c conn p conn' :
  readFrame conn = (DecodeFrame p, conn') ->
  closed (Engine.remoteToDeviceChannel c) = true ->
  Engine.readLoop_body (c, conn) tt = (Panic, (c, conn')).
Proof.
  intros E Hc; cbn [Engine.readLoop_body]; rewrite E.
  rewrite publish_closed by exact Hc; reflexivity.
Qed.

(** C7, the order the code has.  Neither engine leaves its queues for
    the end: on a fresh responder and on a fresh initiator, [Close] closes
    both queues right after the TUN device, before the carriers are closed
    and before the join; only the draining comes after the join. *)
Lemma Close_queues_before_join :
  option_map (fun s => Engine.trace (Server.core s))
             (Server.Close (Server.NewServer (mkConfig [] "server" 1 1 4 4)))
  = Some [EvStatusOff; EvListenerClose; EvDeviceClose;
          EvQueueClose DeviceToRemote; EvQueueClose RemoteToDevice;
          EvCloseAll; EvWait; EvCloseAll;
          EvQueueDrain DeviceToRemote; EvQueueDrain RemoteToDevice]
  /\ specQueuesAfterJoin
       [EvStatusOff; EvListenerClose; EvDeviceClose;
        EvQueueClose DeviceToRemote; EvQueueClose RemoteToDevice;
        EvCloseAll; EvWait; EvCloseAll;
        EvQueueDrain DeviceToRemote; EvQueueDrain RemoteToDevice] = false
  /\ option_map (fun s => Engine.trace (Client.core s))
                (Client.Close (Client.NewClient (mkConfig [] "client" 1 1 4 4)))
     = Some [EvStatusOff; EvDeviceClose;
             EvQueueClose DeviceToRemote; EvQueueClose RemoteToDevice;
             EvCloseAll; EvWait; EvCloseAll;
             EvQueueDrain DeviceToRemote; EvQueueDrain RemoteToDevice]
  /\ specQueuesAfterJoin
       [EvStatusOff; EvDeviceClose;
        EvQueueClose DeviceToRemote; EvQueueClose RemoteToDevice;
        EvCloseAll; EvWait; EvCloseAll;
        EvQueueDrain DeviceToRemote; EvQueueDrain RemoteToDevice] = false.
Proof. vm_compute. repeat split. Qed.

(** C7, as the code has it.  On an engine whose two queues are open,
    [Close] returns, and its steps are, in this order: set [status] to
    false; close the listener (the responder only: the initiator has no
    step of its own for the dial maintainer, which sees [status]); close
    the TUN device; close the outbound queue, then the inbound queue; close
    all carriers with [RemoveAndCloseAll]; join; [RemoveAndCloseAll] once
    more; drain the outbound queue, then the inbound queue.  Afterwards
    [status] is false, the device (and the responder's listener) is
    closed, the pool is empty, every carrier that was in it has been
    closed, and both queues are closed and empty. *)
Theorem Close_order (e : Engine.t) (ln : bool) (n : Z) :
  closed (Engine.deviceToRemoteChannel e) = false ->
  closed (Engine.remoteToDeviceChannel e) = false ->
  let after :=
    fun steps =>
      Engine.mk (Engine.id e) (mkTun true (delivered (Engine.device e)))
                false []
                (mkChan [] (cap (Engine.deviceToRemoteChannel e)) true)
                (mkChan [] (cap (Engine.remoteToDeviceChannel e)) true)
                (mkNet (closedConns (Engine.net e)
                        ++ map Conn (Engine.connections e))
                       (wire (Engine.net e)))
                (Engine.trace e ++ steps) in
  Server.Close (Server.mk e ln)
  = Some (Server.mk
            (after [EvStatusOff; EvListenerClose; EvDeviceClose;
                    EvQueueClose DeviceToRemote; EvQueueClose RemoteToDevice;
                    EvCloseAll; EvWait; EvCloseAll;
                    EvQueueDrain DeviceToRemote; EvQueueDrain RemoteToDevice])
            true)
  /\ Client.Close (Client.mk e n)
     = Some (Client.mk
               (after [EvStatusOff; EvDeviceClose;
                       EvQueueClose DeviceToRemote; EvQueueClose RemoteToDevice;
                       EvCloseAll; EvWait; EvCloseAll;
                       EvQueueDrain DeviceToRemote; EvQueueDrain RemoteToDevice])
               n).
Proof.
  intros H1 H2 after; split.
  - unfold Server.Close.
    cbv zeta.
    match goal with
    | |- context [Engine.closeQueue ?e0 DeviceToRemote] =>
      pose proof (Close_tail e0 H1 H2) as Ht
    end.
    cbv zeta in Ht.
    destruct (Engine.closeQueue _ DeviceToRemote) as [e1|]; [|discriminate].
    destruct (Engine.closeQueue e1 RemoteToDevice) as [e2|]; [|discriminate].
    destruct (Engine.drainQueue _ DeviceToRemote) as [e6|]; [|discriminate].
    destruct (Engine.drainQueue e6 RemoteToDevice) as [e7|]; [|discriminate].
    injection Ht as ->.
    unfold after; cbn; rewrite <- !app_assoc; reflexivity.
  - unfold Client.Close.
    cbv zeta.
    match goal with
    | |- context [Engine.closeQueue ?e0 DeviceToRemote] =>
      pose proof (Close_tail e0 H1 H2) as Ht
    end.
    cbv zeta in Ht.
    destruct (Engine.closeQueue _ DeviceToRemote) as [e1|]; [|discriminate].
    destruct (Engine.closeQueue e1 RemoteToDevice) as [e2|]; [|discriminate].
    destruct (Engine.drainQueue _ DeviceToRemote) as [e6|]; [|discriminate].
    destruct (Engine.drainQueue e6 RemoteToDevice) as [e7|]; [|discriminate].
    injection Ht as ->.
    unfold after; cbn; rewrite <- !app_assoc; reflexivity.
Qed.

Lemma Close_order_witness :
  let cfg := mkConfig [] "server" 2 3 4 4 in
  let e := Engine.with_pool (newEngine cfg)
                            [mkConnection 7%nat [x01]; mkConnection 9%nat [x02]]
                            (mkNet [] []) in
  closed (Engine.deviceToRemoteChannel e) = false
  /\ closed (Engine.remoteToDeviceChannel e) = false
  /\ option_map (fun s => closedConns (Engine.net (Server.core s)))
                (Server.Close (Server.mk e false))
     = Some [7%nat; 9%nat]
  /\ option_map (fun s => Engine.trace (Client.core s))
                (Client.Close (Client.mk e 3))
     = Some [EvStatusOff; EvDeviceClose;
             EvQueueClose DeviceToRemote; EvQueueClose RemoteToDevice;
             EvCloseAll; EvWait; EvCloseAll;
             EvQueueDrain DeviceToRemote; EvQueueDrain RemoteToDevice].
Proof.
  cbv zeta.
  set (e := Engine.with_pool (newEngine (mkConfig [] "server" 2 3 4 4))
              [mkConnection 7%nat [x01]; mkConnection 9%nat [x02]]
              (mkNet [] [])).
  assert (H1 : closed (Engine.deviceToRemoteChannel e) = false)
    by reflexivity.
  assert (H2 : closed (Engine.remoteToDeviceChannel e) = false)
    by reflexivity.
  destruct (Close_order e false 3 H1 H2) as [Hs Hc].
  split; [exact H1|]; split; [exact H2|]; split.
  - rewrite Hs; reflexivity.
  - rewrite Hc; reflexivity.
Defined.

(* ------------------------------------------------------------------ *)
(** * The mode switch *)

(** C8, the words the code knows.  With [mode] set to [initiator] or to
    [responder], [main] starts no engine: its [switch] has the cases
    ["client"] and ["server"] only. *)
Lemma main_initiator_counterexample :
  main (mkConfig [] "initiator" 1 1 4 4) = None
  /\ main (mkConfig [] "responder" 1 1 4 4) = None.
Proof. split; reflexivity. Qed.

(** C8, as the code has it.  The values of [mode] that [main] recognizes
    are [client] and [server]: for [client] it builds the initiator engine
    from the configuration, for [server] the responder engine, and for
    every other value it starts nothing. *)
Theorem main_mode_switch (cfg : Config) :
  (Mode cfg = "client"%string
   /\ main cfg = Some (StartedClient (Client.NewClient cfg)))
  \/ (Mode cfg = "server"%string
      /\ main cfg = Some (StartedServer (Server.NewServer cfg)))
  \/ (Mode cfg <> "client"%string /\ Mode cfg <> "server"%string
      /\ main cfg = None).
Proof.
  unfold main.
  destruct (String.eqb_spec (Mode cfg) "client") as [E1|N1].
  - left; split; [exact E1 | reflexivity].
  - destruct (String.eqb_spec (Mode cfg) "server") as [E2|N2].
    + right; left; split; [exact E2 | reflexivity].
    + right; right; repeat split; assumption.
Qed.

(* ================================================================== *)
(** * Further properties of the pool *)

(** X1.  Insert then remove.  [Add] appends the connection under the
    handle drawn and returns that handle, so the count grows by one; when
    the handle is not yet in the pool, removing it gives back exactly that
    connection and the pool as it was, and [RemoveAndClose] closes exactly
    that connection. *)
Theorem Add_Remove_roundtrip (c : ConnectionPool) (n : Net) (conn : NetConn)
        (fresh : UUID) :
  ~ In fresh (map ID c) ->
  snd (Pool.Add c conn fresh) = fresh
  /\ Pool.Count (fst (Pool.Add c conn fresh)) = Pool.Count c + 1
  /\ Pool.Remove (fst (Pool.Add c conn fresh)) fresh
     = (Some (mkConnection conn fresh), c)
  /\ Pool.RemoveAndClose (fst (Pool.Add c conn fresh)) n fresh
     = (c, net_close n conn).
Proof.
  intros Hfresh; unfold Pool.Add, NewConnection; cbn [fst snd ID].
  assert (Hrm : Pool.Remove (c ++ [mkConnection conn fresh]) fresh
                = (Some (mkConnection conn fresh), c)).
  { unfold Pool.Remove.
    change fresh with (ID (mkConnection conn fresh)) at 2.
    rewrite Remove_loop_split.
    - rewrite app_nil_r; reflexivity.
    - intros x Hx E; apply Hfresh; cbn [ID] in E; rewrite <- E.
      apply in_map; exact Hx.
    - intros x []. }
  repeat split.
  - unfold Pool.Count; rewrite len_app; reflexivity.
  - exact Hrm.
  - unfold Pool.RemoveAndClose; rewrite Hrm; reflexivity.
Qed.

Lemma Add_Remove_roundtrip_witness :
  let c := [mkConnection 7%nat [x01]; mkConnection 9%nat [x02]] in
  ~ In [x03] (map ID c)
  /\ Pool.Remove (fst (Pool.Add c 4%nat [x03])) [x03]
     = (Some (mkConnection 4%nat [x03]), c).
Proof.
  cbv zeta.
  assert (H : ~ In [x03] (map ID [mkConnection 7%nat [x01];
                                  mkConnection 9%nat [x02]]))
    by (cbn; intros [E|[E|[]]]; discriminate E).
  split; [exact H|].
  exact (proj1 (proj2 (proj2
           (Add_Remove_roundtrip _ (mkNet [] []) 4%nat [x03] H)))).
Defined.

(** X2.  Removing a handle twice.  After [RemoveAndClose] of a handle, a
    second [RemoveAndClose] of the same handle finds no member, closes
    nothing and leaves the pool as the first call left it. *)
Theorem RemoveAndClose_twice (c : ConnectionPool) (n : Net) (uuid : UUID) :
  Pool.Remove (fst (Pool.RemoveAndClose c n uuid)) uuid
  = (None, fst (Pool.RemoveAndClose c n uuid))
  /\ Pool.RemoveAndClose (fst (Pool.RemoveAndClose c n uuid))
                         (snd (Pool.RemoveAndClose c n uuid)) uuid
     = Pool.RemoveAndClose c n uuid.
Proof.
  assert (Hfst : fst (Pool.RemoveAndClose c n uuid) = snd (Pool.Remove c uuid))
    by (unfold Pool.RemoveAndClose;
        destruct (Pool.Remove c uuid) as [[x|] c']; reflexivity).
  pose proof (Remove_idempotent c uuid) as Hid.
  rewrite Hfst; split; [exact Hid|].
  unfold Pool.RemoveAndClose at 1; rewrite Hid.
  rewrite <- Hfst; symmetry; apply surjective_pairing.
Qed.

(** X3.  What [Remove] leaves and what it closes.  The pool after
    [Remove] holds exactly the members with another handle, in their old
    order; [Remove] returns nil exactly when no member has the handle; a
    pick from the pool afterwards is never a member with the removed
    handle; and [RemoveAndClose] closes at most one connection, even when
    several members carried the handle. *)
Theorem Remove_exact (c : ConnectionPool) (n : Net) (uuid : UUID) :
  snd (Pool.Remove c uuid)
  = filter (fun x => negb (bytes.Equal (ID x) uuid)) c
  /\ (fst (Pool.Remove c uuid) = None
      <-> forall x, In x c -> ID x <> uuid)
  /\ (forall draw conn,
        Pool.Rand (snd (Pool.Remove c uuid)) draw = Some conn ->
        In conn c /\ ID conn <> uuid)
  /\ (length (closedConns (snd (Pool.RemoveAndClose c n uuid)))
      <= length (closedConns n) + 1)%nat
  /\ wire (snd (Pool.RemoveAndClose c n uuid)) = wire n.
Proof.
  assert (Hkept : snd (Pool.Remove c uuid)
                  = filter (fun x => negb (bytes.Equal (ID x) uuid)) c)
    by (unfold Pool.Remove; rewrite Remove_loop_kept; reflexivity).
  split; [exact Hkept|]; split; [|split; [|split]].
  - split.
    + intros Hnone x Hx E.
      unfold Pool.Remove in Hnone.
      assert (Hgen : forall l connection kept,
                 fst (Pool.Remove_loop l uuid connection kept) = None ->
                 connection = None
                 /\ forall y, In y l -> ID y <> uuid).
      { induction l as [|y l IH]; intros connection kept Hf; cbn in Hf.
        - split; [exact Hf | intros ? []].
        - destruct (bytes.Equal (ID y) uuid) eqn:Ey.
          + apply IH in Hf; destruct Hf as [Hf _]; discriminate Hf.
          + apply IH in Hf; destruct Hf as [Hf Hall]; split; [exact Hf|].
            intros z [<-|Hz]; [apply Equal_false; exact Ey | auto]. }
      exact (proj2 (Hgen c None [] Hnone) x Hx E).
    + intros Hall; unfold Pool.Remove.
      rewrite Remove_loop_absent by exact Hall; reflexivity.
  - intros draw conn Hr; apply Rand_In in Hr.
    rewrite Hkept in Hr; apply filter_In in Hr; destruct Hr as [Hin Hne].
    split; [exact Hin|].
    apply negb_true_iff, Equal_false in Hne; exact Hne.
  - unfold Pool.RemoveAndClose.
    destruct (Pool.Remove c uuid) as [[x|] c']; cbn;
      rewrite ?length_app; cbn; lia.
  - apply RemoveAndClose_wire.
Qed.

(** X4.  The pick.  [Rand] returns nil exactly on the empty pool, and on
    any other pool it returns one of the members, whatever the generator
    draws. *)
Theorem Rand_picks_member (c : ConnectionPool) (draw : nat) :
  (Pool.Rand c draw = None <-> c = [])
  /\ (c <> [] -> exists conn, Pool.Rand c draw = Some conn /\ In conn c).
Proof.
  split; [apply Rand_nil_iff|].
  intros Hne; destruct (Rand_nonempty c draw Hne) as (conn & E).
  exists conn; split; [exact E | exact (Rand_In _ _ _ E)].
Qed.

(** X5.  Closing the pool.  [RemoveAndCloseAll] closes the connection of
    every member, once each and in the order of the pool, writes nothing,
    and leaves the empty pool: the count is zero, a pick returns nil, and
    a second [RemoveAndCloseAll] closes nothing more. *)
Theorem RemoveAndCloseAll_empties (c : ConnectionPool) (n : Net) :
  let r := Pool.RemoveAndCloseAll c n in
  fst r = []
  /\ closedConns (snd r) = closedConns n ++ map Conn c
  /\ wire (snd r) = wire n
  /\ Pool.Count (fst r) = 0
  /\ (forall draw, Pool.Rand (fst r) draw = None)
  /\ Pool.RemoveAndCloseAll (fst r) (snd r) = r.
Proof.
  cbv zeta; rewrite RemoveAndCloseAll_closes; cbn [fst snd closedConns wire].
  repeat split.
Qed.

(* ================================================================== *)
(** * Whole runs of the data-path loops *)

Section Runs.

Variables (eid : UUID) (dev : Tun) (pool : ConnectionPool) (tr : list Event).

Lemma firstn_room {A} (k used : Z) (x : A) (l : list A) :
  used < k ->
  firstn (Z.to_nat (k - used)) (x :: l)
  = x :: firstn (Z.to_nat (k - (used + 1))) l.
Proof.
  intros H.
  replace (Z.to_nat (k - used)) with (S (Z.to_nat (k - (used + 1)))) by lia.
  reflexivity.
Qed.

Lemma firstn_no_room {A} (k used : Z) (l : list A) :
  k <= used -> firstn (Z.to_nat (k - used)) l = [].
Proof.
  intros H; replace (Z.to_nat (k - used)) with 0%nat by lia; reflexivity.
Qed.

(** The reader's loop on a run of datagrams, on the engine written out. *)
Lemma reader_run k q2 n : forall ps b,
  Forall (fun p => 1 <= Slice.len p <= 65533) ps ->
  Engine.handleDevicePacket
    (map (fun p => TunData (Slice.len p) p) ps)
    (Engine.mk eid dev true pool (mkChan b k false) q2 n tr)
  = (Looping,
     Engine.mk eid dev true pool
               (mkChan (b ++ firstn (Z.to_nat (k - Slice.len b))
                                    (map frame ps)) k false)
               q2 n tr).
Proof.
  induction ps as [|p ps IH]; intros b Hall.
  - cbn; rewrite firstn_nil, app_nil_r; reflexivity.
  - inversion Hall as [|? ? Hp Hps]; subst.
    cbn [map]; unfold Engine.handleDevicePacket.
    set (c := Engine.mk eid dev true pool (mkChan b k false) q2 n tr).
    assert (Hb : Engine.handleDevicePacket_body c (TunData (Slice.len p) p)
                 = (Continue,
                    Engine.mk eid dev true pool
                      (mkChan (if Slice.len b <? k then b ++ [frame p] else b)
                              k false) q2 n tr)).
    { rewrite handleDevicePacket_body_frame by exact Hp.
      rewrite publish_open by reflexivity.
      unfold c; cbn; destruct (Slice.len b <? k); reflexivity. }
    rewrite (loop_continue Engine.status _ _ _ c _ eq_refl Hb).
    fold (Engine.handleDevicePacket
            (map (fun p => TunData (Slice.len p) p) ps)
            (Engine.mk eid dev true pool
               (mkChan (if Slice.len b <? k then b ++ [frame p] else b)
                       k false) q2 n tr)).
    rewrite IH by exact Hps.
    destruct (Z.ltb_spec (Slice.len b) k) as [Hroom|Hfull].
    + rewrite len_app, <- app_assoc.
      change (Slice.len [frame p]) with 1.
      rewrite (firstn_room k (Slice.len b)) by exact Hroom; reflexivity.
    + rewrite !firstn_no_room by exact Hfull; reflexivity.
Qed.

(** A worker's loop while every write succeeds, the pool has members and
    the queue still holds a slice for each pass. *)
Lemma worker_run q2 : forall ins b k cl n,
  pool <> [] ->
  Forall (fun i => Engine.writeOk i = true) ins ->
  (length ins <= length b)%nat ->
  exists conns,
    length conns = length ins
    /\ Forall (fun x => In x pool) conns
    /\ Engine.handleDeviceToRemoteChannel
         ins (Engine.mk eid dev true pool (mkChan b k cl) q2 n tr)
       = (Looping,
          Engine.mk eid dev true pool
                    (mkChan (skipn (length ins) b) k cl) q2
                    (mkNet (closedConns n)
                           (wire n ++ combine (map Conn conns)
                                              (firstn (length ins) b)))
                    tr).
Proof.
  induction ins as [|i ins IH]; intros b k cl n Hne Hok Hlen.
  - exists []; repeat split; [constructor|].
    cbn; rewrite app_nil_r; destruct n; reflexivity.
  - destruct b as [|data b]; [cbn in Hlen; lia|].
    inversion Hok as [|? ? Hi Hins]; subst.
    destruct (Rand_nonempty pool (Engine.draw i) Hne) as (conn & Hr).
    destruct (IH b k cl (net_write n (Conn conn) data) Hne Hins
                ltac:(cbn in Hlen; lia)) as (conns & Hl & Hin & E).
    exists (conn :: conns); split; [cbn; lia|]; split;
      [constructor; [exact (Rand_In _ _ _ Hr) | exact Hin]|].
    unfold Engine.handleDeviceToRemoteChannel in *.
    set (c := Engine.mk eid dev true pool (mkChan (data :: b) k cl) q2 n tr).
    assert (Hb : Engine.handleDeviceToRemoteChannel_body c i
                 = (Continue,
                    Engine.mk eid dev true pool (mkChan b k cl) q2
                              (net_write n (Conn conn) data) tr)).
    { unfold Engine.handleDeviceToRemoteChannel_body, c; cbn.
      rewrite Hr, Hi; reflexivity. }
    rewrite (loop_continue Engine.status _ _ _ c _ eq_refl Hb), E.
    cbn; rewrite <- app_assoc; reflexivity.
Qed.

(** A worker's loop on an empty pool: every slice taken is dropped. *)
Lemma worker_run_no_carrier q2 : forall ins b k cl n,
  pool = [] ->
  (length ins <= length b)%nat ->
  Engine.handleDeviceToRemoteChannel
    ins (Engine.mk eid dev true pool (mkChan b k cl) q2 n tr)
  = (Looping,
     Engine.mk eid dev true pool (mkChan (skipn (length ins) b) k cl) q2 n tr).
Proof.
  induction ins as [|i ins IH]; intros b k cl n Hempty Hlen;
    [reflexivity|].
  destruct b as [|data b]; [cbn in Hlen; lia|].
  unfold Engine.handleDeviceToRemoteChannel in *.
  set (c := Engine.mk eid dev true pool (mkChan (data :: b) k cl) q2 n tr).
  assert (Hb : Engine.handleDeviceToRemoteChannel_body c i
               = (Continue,
                  Engine.mk eid dev true pool (mkChan b k cl) q2 n tr)).
  { unfold Engine.handleDeviceToRemoteChannel_body, c; cbn.
    rewrite Hempty; reflexivity. }
  rewrite (loop_continue Engine.status _ _ _ c _ eq_refl Hb).
  rewrite IH by (try exact Hempty; cbn in Hlen; lia); reflexivity.
Qed.

(** The datagrams of [ps] whose write to the TUN device succeeds. *)
Lemma writer_run q1 n : forall oks b k cl w out,
  (length oks <= length b)%nat ->
  Engine.handleRemoteToDeviceChannel
    oks (Engine.mk eid (mkTun w out) true pool q1 (mkChan b k cl) n tr)
  = (Looping,
     Engine.mk eid
       (mkTun w (out ++ map snd (filter fst
                                   (combine oks (firstn (length oks) b)))))
       true pool q1 (mkChan (skipn (length oks) b) k cl) n tr).
Proof.
  induction oks as [|ok oks IH]; intros b k cl w out Hlen.
  - cbn; rewrite app_nil_r; reflexivity.
  - destruct b as [|data b]; [cbn in Hlen; lia|].
    unfold Engine.handleRemoteToDeviceChannel in *.
    set (c := Engine.mk eid (mkTun w out) true pool q1
                        (mkChan (data :: b) k cl) n tr).
    assert (Hb : Engine.handleRemoteToDeviceChannel_body c ok
                 = (Continue,
                    Engine.mk eid
                      (mkTun w (if ok then out ++ [data] else out))
                      true pool q1 (mkChan b k cl) n tr)).
    { unfold Engine.handleRemoteToDeviceChannel_body, c; cbn.
      destruct ok; reflexivity. }
    rewrite (loop_continue Engine.status _ _ _ c _ eq_refl Hb).
    rewrite IH by (cbn in Hlen; lia).
    destruct ok; cbn; rewrite <- ?app_assoc; reflexivity.
Qed.

End Runs.

(** A stream that fails inside the header leaves nothing behind it. *)
Lemma readFrame_short_header_rest conn :
  Slice.len (bytes_of conn) < 2 ->
  exists e conn', readFrame conn = (DecodeErr e, conn') /\ bytes_of conn' = [].
Proof.
  intros Hs; unfold readFrame.
  pose proof (len_make bufSize ltac:(unfold bufSize; lia)) as Hd.
  set (data := Slice.make bufSize) in *; clearbody data.
  unfold bufSize in Hd.
  rewrite upto_Some by lia.
  rewrite len_firstn by lia.
  destruct (ReadFull_short conn 2 Hs) as (_ & Hrest & E).
  rewrite E; do 2 eexists; split; [reflexivity|].
  unfold bytes_of; rewrite Hrest; reflexivity.
Qed.

(** The frame of a payload at the head of a stream is decoded into the
    payload, and the stream is left at the byte after the frame. *)
Lemma readFrame_of_frame p tail conn :
  1 <= Slice.len p <= 65535 ->
  bytes_of conn = frame p ++ tail ->
  exists conn',
    readFrame conn = (DecodeFrame p, conn') /\ bytes_of conn' = tail.
Proof.
  intros Hp Hb.
  assert (HL : header (bytes_of conn) = Some (Slice.len p))
    by (rewrite Hb; apply header_frame; lia).
  assert (H2 : 2 <= Slice.len (bytes_of conn))
    by (rewrite Hb, len_app, len_frame; pose proof (len_nonneg tail); lia).
  destruct (readFrame_header conn _ HL H2) as (_ & _ & Hok).
  rewrite Hb, skipn_frame in Hok.
  destruct (Hok ltac:(lia)
                ltac:(rewrite len_app; pose proof (len_nonneg tail); lia))
    as (conn' & E & Hrest & _).
  exists conn'; unfold Slice.len in *; rewrite Nat2Z.id in *.
  rewrite firstn_app, Nat.sub_diag, firstn_all, firstn_0, app_nil_r in E.
  rewrite skipn_app, Nat.sub_diag, skipn_all in Hrest.
  auto.
Qed.

(** A carrier's read loop on a stream that is a run of frames and then
    fails, on the engine written out. *)
Lemma readLoop_run eid dev st pool q1 n tr k : forall ps fuel b conn,
  Forall (fun p => 1 <= Slice.len p <= 65535) ps ->
  bytes_of conn = concat (map frame ps) ->
  (length (bytes_of conn) < fuel)%nat ->
  exists conn',
    loop (fun _ : Engine.t * Stream => true) Engine.readLoop_body
         (repeat tt fuel)
         (Engine.mk eid dev st pool q1 (mkChan b k false) n tr, conn)
    = (Broke,
       (Engine.mk eid dev st pool q1
          (mkChan (b ++ firstn (Z.to_nat (k - Slice.len b)) ps) k false)
          n tr, conn'))
    /\ bytes_of conn' = [].
Proof.
  induction ps as [|p ps IH]; intros fuel b conn Hall Hbytes Hfuel;
    (destruct fuel as [|fuel]; [lia|]).
  - cbn [map concat] in Hbytes.
    destruct (readFrame_short_header_rest conn
                ltac:(rewrite Hbytes; cbn; lia)) as (e & conn' & E & Hr).
    exists conn'; split; [|exact Hr].
    cbn [repeat loop Engine.readLoop_body]; rewrite E.
    rewrite firstn_nil, app_nil_r; reflexivity.
  - inversion Hall as [|? ? Hp Hps]; subst.
    cbn [map concat] in Hbytes.
    destruct (readFrame_of_frame p _ conn Hp Hbytes) as (conn1 & E & Hr).
    assert (Hfuel1 : (length (bytes_of conn1) < fuel)%nat).
    { pose proof (len_frame p) as Hf; unfold Slice.len in Hf.
      rewrite Hbytes, length_app in Hfuel; rewrite Hr; lia. }
    cbn [repeat loop Engine.readLoop_body]; rewrite E.
    rewrite publish_open by reflexivity.
    cbn [Engine.queue Engine.remoteToDeviceChannel buf cap].
    destruct (Z.ltb_spec (Slice.len b) k) as [Hroom|Hfull].
    + destruct (IH fuel (b ++ [p]) conn1 Hps Hr Hfuel1)
        as (conn' & El & Hr').
      exists conn'; split; [|exact Hr'].
      unfold Engine.pushed; cbn; rewrite El.
      rewrite len_app, <- app_assoc.
      change (Slice.len [p]) with 1.
      rewrite (firstn_room k (Slice.len b)) by exact Hroom; reflexivity.
    + destruct (IH fuel b conn1 Hps Hr Hfuel1) as (conn' & El & Hr').
      exists conn'; split; [|exact Hr'].
      rewrite El, !firstn_no_room by exact Hfull; reflexivity.
Qed.

Lemma map_snd_combine_eq {A B} : forall (l : list A) (l' : list B),
  length l = length l' -> map snd (combine l l') = l'.
Proof.
  induction l as [|x l IH]; intros [|y l'] Hl; cbn in *; try lia;
    [reflexivity|].
  f_equal; apply IH; lia.
Qed.

(** X6.  The TUN reader over a run of datagrams.  With [status] true and
    the outbound queue open and buffered, after reads that return the
    datagrams [ps] (each of 1 to 65533 bytes) the queue holds what it held
    followed by the frames of the first datagrams of [ps], as many as there
    was room for, in the order read: once the queue is full it is the new
    datagram that is dropped, never a queued one, and the reader is still
    in its loop. *)
Theorem reader_run_tail_drop (c : Engine.t) (ps : list (list byte)) :
  Engine.status c = true ->
  closed (Engine.deviceToRemoteChannel c) = false ->
  1 <= cap (Engine.deviceToRemoteChannel c) ->
  Forall (fun p => 1 <= Slice.len p <= 65533) ps ->
  let q := Engine.deviceToRemoteChannel c in
  Engine.handleDevicePacket (map (fun p => TunData (Slice.len p) p) ps) c
  = (Looping,
     Engine.with_queue c DeviceToRemote
       (mkChan (buf q ++ firstn (Z.to_nat (cap q - Slice.len (buf q)))
                                (map frame ps))
               (cap q) false)).
Proof.
  destruct c as [i d st pl [b k cl] q2 n tr]; cbn; intros -> -> _ Hall.
  apply reader_run; exact Hall.
Qed.

Lemma reader_run_tail_drop_witness :
  let c := newEngine (mkConfig [] "client" 1 1 2 2) in
  let ps := [[x45]; [x46; x00]; [x47]] in
  Engine.status c = true
  /\ closed (Engine.deviceToRemoteChannel c) = false
  /\ 1 <= cap (Engine.deviceToRemoteChannel c)
  /\ Forall (fun p => 1 <= Slice.len p <= 65533) ps
  /\ buf (Engine.deviceToRemoteChannel
            (snd (Engine.handleDevicePacket
                    (map (fun p => TunData (Slice.len p) p) ps) c)))
     = [[x00; x01; x45]; [x00; x02; x46; x00]].
Proof.
  cbv zeta.
  set (c := newEngine (mkConfig [] "client" 1 1 2 2)).
  assert (H1 : Engine.status c = true) by reflexivity.
  assert (H2 : closed (Engine.deviceToRemoteChannel c) = false)
    by reflexivity.
  assert (H3 : 1 <= cap (Engine.deviceToRemoteChannel c)) by (cbn; lia).
  assert (H4 : Forall (fun p => 1 <= Slice.len p <= 65533)
                      [[x45]; [x46; x00]; [x47]])
    by (repeat constructor; unfold Slice.len; cbn; lia).
  repeat (split; [assumption|]).
  rewrite (reader_run_tail_drop c _ H1 H2 H3 H4); reflexivity.
Defined.

(** X7.  A worker over a run of queued slices.  With [status] true, a
    pool that has members and every write succeeding, a worker that makes
    [n] passes on a queue holding at least [n] slices takes the [n] oldest
    off the queue and writes each of them once, whole and in queue order,
    to a member of the pool; it closes nothing, leaves the pool, the
    inbound queue and the TUN device alone, and is still in its loop. *)
Theorem worker_run_in_order (c : Engine.t) (ins : list Engine.WorkerIn) :
  Engine.status c = true ->
  Engine.connections c <> [] ->
  Forall (fun i => Engine.writeOk i = true) ins ->
  (length ins <= length (buf (Engine.deviceToRemoteChannel c)))%nat ->
  let q := Engine.deviceToRemoteChannel c in
  let r := Engine.handleDeviceToRemoteChannel ins c in
  exists conns,
    length conns = length ins
    /\ Forall (fun x => In x (Engine.connections c)) conns
    /\ r = (Looping,
            Engine.with_net
              (Engine.with_queue c DeviceToRemote
                 (mkChan (skipn (length ins) (buf q)) (cap q) (closed q)))
              (mkNet (closedConns (Engine.net c))
                     (wire (Engine.net c)
                      ++ combine (map Conn conns)
                                 (firstn (length ins) (buf q)))))
    /\ map snd (wire (Engine.net (snd r)))
       = map snd (wire (Engine.net c)) ++ firstn (length ins) (buf q).
Proof.
  destruct c as [i d st pl [b k cl] q2 n tr]; cbn; intros -> Hne Hok Hlen.
  destruct (worker_run i d pl tr q2 ins b k cl n Hne Hok Hlen)
    as (conns & Hl & Hin & E).
  exists conns; split; [exact Hl|]; split; [exact Hin|].
  rewrite E; split; [reflexivity|].
  cbn; rewrite map_app, map_snd_combine_eq; [reflexivity|].
  rewrite length_map, length_firstn; lia.
Qed.

Lemma worker_run_in_order_witness :
  let c0 := newEngine (mkConfig [] "client" 1 1 4 4) in
  let c := Engine.pushed
             (Engine.pushed
                (Engine.with_pool c0 [mkConnection 7%nat [x01]]
                                  (Engine.net c0))
                DeviceToRemote [x00; x01; x45])
             DeviceToRemote [x00; x01; x46] in
  let ins := [Engine.mkWorkerIn 5 true; Engine.mkWorkerIn 8 true] in
  Engine.status c = true
  /\ Engine.connections c <> []
  /\ Forall (fun i => Engine.writeOk i = true) ins
  /\ (length ins <= length (buf (Engine.deviceToRemoteChannel c)))%nat
  /\ map snd (wire (Engine.net
                      (snd (Engine.handleDeviceToRemoteChannel ins c))))
     = [[x00; x01; x45]; [x00; x01; x46]].
Proof.
  cbv zeta.
  set (c0 := newEngine (mkConfig [] "client" 1 1 4 4)).
  set (c := Engine.pushed
              (Engine.pushed
                 (Engine.with_pool c0 [mkConnection 7%nat [x01]]
                                   (Engine.net c0))
                 DeviceToRemote [x00; x01; x45])
              DeviceToRemote [x00; x01; x46]).
  set (ins := [Engine.mkWorkerIn 5 true; Engine.mkWorkerIn 8 true]).
  assert (H1 : Engine.status c = true) by reflexivity.
  assert (H2 : Engine.connections c <> []) by (cbn; discriminate).
  assert (H3 : Forall (fun i => Engine.writeOk i = true) ins)
    by (repeat constructor).
  assert (H4 : (length ins
                <= length (buf (Engine.deviceToRemoteChannel c)))%nat)
    by (cbn; lia).
  repeat (split; [assumption|]).
  destruct (worker_run_in_order c ins H1 H2 H3 H4) as (conns & _ & _ & _ & E).
  rewrite E; reflexivity.
Defined.

(** X8.  A worker with no carrier.  With [status] true and an empty
    pool, a worker that makes [n] passes on a queue holding at least [n]
    slices takes the [n] oldest off the queue and drops them: nothing is
    written, nothing is closed, nothing is put back, and the worker is
    still in its loop, whatever the write results would have been. *)
Theorem worker_run_empty_pool (c : Engine.t) (ins : list Engine.WorkerIn) :
  Engine.status c = true ->
  Engine.connections c = [] ->
  (length ins <= length (buf (Engine.deviceToRemoteChannel c)))%nat ->
  let q := Engine.deviceToRemoteChannel c in
  Engine.handleDeviceToRemoteChannel ins c
  = (Looping,
     Engine.with_queue c DeviceToRemote
       (mkChan (skipn (length ins) (buf q)) (cap q) (closed q))).
Proof.
  destruct c as [i d st pl [b k cl] q2 n tr]; cbn; intros -> -> Hlen.
  apply (worker_run_no_carrier i d [] tr q2 ins b k cl n eq_refl Hlen).
Qed.

Lemma worker_run_empty_pool_witness :
  let c := Engine.pushed (newEngine (mkConfig [] "client" 1 1 4 4))
                         DeviceToRemote [x00; x01; x45] in
  Engine.status c = true
  /\ Engine.connections c = []
  /\ (1 <= length (buf (Engine.deviceToRemoteChannel c)))%nat
  /\ Engine.handleDeviceToRemoteChannel [Engine.mkWorkerIn 0 true] c
     = (Looping, newEngine (mkConfig [] "client" 1 1 4 4)).
Proof.
  cbv zeta.
  set (c := Engine.pushed (newEngine (mkConfig [] "client" 1 1 4 4))
                          DeviceToRemote [x00; x01; x45]).
  assert (H1 : Engine.status c = true) by reflexivity.
  assert (H2 : Engine.connections c = []) by reflexivity.
  assert (H3 : (length [Engine.mkWorkerIn 0 true]
                <= length (buf (Engine.deviceToRemoteChannel c)))%nat)
    by (cbn; lia).
  split; [exact H1|]; split; [exact H2|]; split; [exact H3|].
  rewrite (worker_run_empty_pool c _ H1 H2 H3); reflexivity.
Defined.

(** X9.  A carrier's read loop over a run of frames.  When a carrier
    delivers the frames of the payloads [ps] (each of 1 to 65535 bytes),
    in whatever segments, and then fails, the read loop offers the payloads
    to the open, buffered inbound queue one by one and in order, without
    their headers and with their boundaries kept; the queue ends up holding
    what it held followed by the first payloads of [ps], as many as there
    was room for; the loop has read the whole stream and returns. *)
Theorem readLoop_frames_in_order (c : Engine.t) (conn : Stream)
        (ps : list (list byte)) :
  closed (Engine.remoteToDeviceChannel c) = false ->
  1 <= cap (Engine.remoteToDeviceChannel c) ->
  Forall (fun p => 1 <= Slice.len p <= 65535) ps ->
  bytes_of conn = concat (map frame ps) ->
  let q := Engine.remoteToDeviceChannel c in
  exists conn',
    Engine.readLoop c conn
    = (Broke,
       (Engine.with_queue c RemoteToDevice
          (mkChan (buf q ++ firstn (Z.to_nat (cap q - Slice.len (buf q))) ps)
                  (cap q) false),
        conn'))
    /\ bytes_of conn' = [].
Proof.
  destruct c as [i d st pl q1 [b k cl] n tr].
  cbn [Engine.remoteToDeviceChannel closed cap buf Engine.with_queue
       Engine.id Engine.device Engine.status Engine.connections
       Engine.deviceToRemoteChannel Engine.net Engine.trace].
  intros -> _ Hall Hb; unfold Engine.readLoop.
  exact (readLoop_run i d st pl q1 n tr k ps (S (length (bytes_of conn)))
                      b conn Hall Hb ltac:(lia)).
Qed.

Lemma readLoop_frames_in_order_witness :
  let c := newEngine (mkConfig [] "server" 1 1 4 4) in
  let conn := mkStream [[x00]; [x01; x45; x00]; [x02; x46]; [x47]] EOF in
  closed (Engine.remoteToDeviceChannel c) = false
  /\ 1 <= cap (Engine.remoteToDeviceChannel c)
  /\ Forall (fun p => 1 <= Slice.len p <= 65535) [[x45]; [x46; x47]]
  /\ bytes_of conn = concat (map frame [[x45]; [x46; x47]])
  /\ exists conn',
       Engine.readLoop c conn
       = (Broke,
          (Engine.pushed (Engine.pushed c RemoteToDevice [x45])
                         RemoteToDevice [x46; x47], conn')).
Proof.
  cbv zeta.
  set (c := newEngine (mkConfig [] "server" 1 1 4 4)).
  set (conn := mkStream [[x00]; [x01; x45; x00]; [x02; x46]; [x47]] EOF).
  assert (H1 : closed (Engine.remoteToDeviceChannel c) = false)
    by reflexivity.
  assert (H2 : 1 <= cap (Engine.remoteToDeviceChannel c)) by (cbn; lia).
  assert (H3 : Forall (fun p => 1 <= Slice.len p <= 65535)
                      [[x45]; [x46; x47]])
    by (repeat constructor; unfold Slice.len; cbn; lia).
  assert (H4 : bytes_of conn = concat (map frame [[x45]; [x46; x47]]))
    by reflexivity.
  repeat (split; [assumption|]).
  destruct (readLoop_frames_in_order c conn _ H1 H2 H3 H4) as (conn' & E & _).
  exists conn'; rewrite E; reflexivity.
Defined.

(** X10.  The TUN writer over a run of queued payloads.  With [status]
    true, a writer that makes [n] passes on an inbound queue holding at
    least [n] payloads takes the [n] oldest off the queue and has written
    to the TUN device, in queue order, exactly those whose write succeeded;
    a failed write loses that payload only, and the writer is still in its
    loop. *)
Theorem writer_run_delivers (c : Engine.t) (oks : list bool) :
  Engine.status c = true ->
  (length oks <= length (buf (Engine.remoteToDeviceChannel c)))%nat ->
  let q := Engine.remoteToDeviceChannel c in
  Engine.handleRemoteToDeviceChannel oks c
  = (Looping,
     Engine.with_device
       (Engine.with_queue c RemoteToDevice
          (mkChan (skipn (length oks) (buf q)) (cap q) (closed q)))
       (mkTun (tunClosed (Engine.device c))
              (delivered (Engine.device c)
               ++ map snd (filter fst
                             (combine oks (firstn (length oks) (buf q))))))).
Proof.
  destruct c as [i [w out] st pl q1 [b k cl] n tr]; cbn; intros -> Hlen.
  apply writer_run; exact Hlen.
Qed.

Lemma writer_run_delivers_witness :
  let c := Engine.pushed
             (Engine.pushed
                (Engine.pushed (newEngine (mkConfig [] "server" 1 1 4 4))
                               RemoteToDevice [x45])
                RemoteToDevice [x46])
             RemoteToDevice [x47] in
  Engine.status c = true
  /\ (3 <= length (buf (Engine.remoteToDeviceChannel c)))%nat
  /\ delivered (Engine.device
                  (snd (Engine.handleRemoteToDeviceChannel
                          [true; false; true] c)))
     = [[x45]; [x47]].
Proof.
  cbv zeta.
  set (c := Engine.pushed
              (Engine.pushed
                 (Engine.pushed (newEngine (mkConfig [] "server" 1 1 4 4))
                                RemoteToDevice [x45])
                 RemoteToDevice [x46])
              RemoteToDevice [x47]).
  assert (H1 : Engine.status c = true) by reflexivity.
  assert (H2 : (length [true; false; true]
                <= length (buf (Engine.remoteToDeviceChannel c)))%nat)
    by (cbn; lia).
  split; [exact H1|]; split; [exact H2|].
  rewrite (writer_run_delivers c _ H1 H2); reflexivity.
Defined.

(* ================================================================== *)
(** * From one TUN device to the other, over one carrier *)






(* ================================================================== *)
(** * The queues stay within their capacity *)

Lemma publish_bounded c q data :
  queuesBounded c -> queuesBounded (snd (Engine.publish c q data)).
Proof.
  intros [H1 H2]; unfold Engine.publish, chan.offer.
  destruct (closed (Engine.queue c q)); [split; assumption|].
  destruct (Z.ltb_spec (Slice.len (buf (Engine.queue c q)))
                       (cap (Engine.queue c q))) as [Hroom|Hfull];
    [|split; assumption].
  destruct q; split; cbn in *; rewrite ?len_app; try assumption;
    change (Slice.len [data]) with 1; lia.
Qed.

Lemma len_tail {A} (x : A) l : Slice.len l <= Slice.len (x :: l).
Proof. unfold Slice.len; cbn [length]; lia. Qed.

(** X12.  Bounded queues.  An engine in which neither queue holds more
    slices than its capacity stays so after a pass of any of its
    goroutines: the TUN reader and the read loops only ever add a slice
    through the non-blocking offer, which appends only below capacity, and
    the workers and the TUN writer only take slices off. *)
Theorem queues_stay_bounded (c : Engine.t) :
  queuesBounded c ->
  (forall r, queuesBounded (snd (Engine.handleDevicePacket_body c r)))
  /\ (forall i, queuesBounded (snd (Engine.handleDeviceToRemoteChannel_body c i)))
  /\ (forall conn,
        queuesBounded (fst (snd (Engine.readLoop_body (c, conn) tt))))
  /\ (forall ok,
        queuesBounded (snd (Engine.handleRemoteToDeviceChannel_body c ok))).
Proof.
  intros Hc; split; [|split; [|split]].
  - intros [|size stored].
    + rewrite handleDevicePacket_body_err; exact Hc.
    + destruct (Z.le_gt_cases size 0) as [Hle|Hpos].
      * rewrite handleDevicePacket_body_nonpositive by exact Hle; exact Hc.
      * destruct (handleDevicePacket_body_positive c size stored ltac:(lia))
          as [Hbig Hfit].
        destruct (Z.le_gt_cases size 65533) as [Hs|Hs].
        -- destruct (Hfit Hs) as (fr & E & _); rewrite E.
           apply publish_bounded; exact Hc.
        -- rewrite Hbig by lia; exact Hc.
  - intros i; destruct Hc as [H1 H2].
    unfold Engine.handleDeviceToRemoteChannel_body, chan.recv.
    destruct (buf (Engine.deviceToRemoteChannel c)) as [|data more] eqn:Eb.
    + destruct (closed (Engine.deviceToRemoteChannel c)); split;
        cbn; rewrite ?Eb; assumption.
    + pose proof (len_tail data more) as Ht.
      cbn [Engine.with_queue Engine.connections].
      destruct (Pool.Rand (Engine.connections c) (Engine.draw i)) as [conn|];
        [destruct (Engine.writeOk i)|];
        try (split; cbn; [lia | assumption]).
      unfold Engine.RemoveAndClose.
      destruct (Pool.RemoveAndClose _ _ (ID conn)) as [p n].
      split; cbn; [lia | assumption].
  - intros conn; cbn [Engine.readLoop_body].
    destruct (readFrame conn) as [[e| | |p] conn']; cbn; try exact Hc.
    pose proof (publish_bounded c RemoteToDevice p Hc) as Hp.
    destruct (Engine.publish c RemoteToDevice p) as [k c']; exact Hp.
  - intros ok; destruct Hc as [H1 H2].
    unfold Engine.handleRemoteToDeviceChannel_body, chan.recv.
    destruct (buf (Engine.remoteToDeviceChannel c)) as [|data more] eqn:Eb.
    + destruct (closed (Engine.remoteToDeviceChannel c)); split;
        cbn; rewrite ?Eb; assumption.
    + pose proof (len_tail data more) as Ht.
      destruct ok; split; cbn; try assumption; lia.
Qed.

Lemma queues_stay_bounded_witness :
  let c := Engine.pushed (newEngine (mkConfig [] "client" 1 1 1 1))
                         DeviceToRemote [x00; x01; x45] in
  queuesBounded c
  /\ queuesBounded (snd (Engine.handleDevicePacket_body c (TunData 1 [x46]))).
Proof.
  cbv zeta.
  set (c := Engine.pushed (newEngine (mkConfig [] "client" 1 1 1 1))
                          DeviceToRemote [x00; x01; x45]).
  assert (H : queuesBounded c)
    by (split; unfold Slice.len; cbn; lia).
  split; [exact H|].
  exact (proj1 (queues_stay_bounded c H) (TunData 1 [x46])).
Defined.

(* ================================================================== *)
(** * Dialing *)

(** A dial that joins the pool: [Dial] returned a connection and the
    write of the endpoint id succeeded. *)
Lemma doDialConn_joined c i conn :
  Client.dialed i = Some conn -> Client.idWritten i = true ->
  Client.doDialConn c i
  = (Client.Joined (Client.freshID i),
     Client.mk
       (Engine.with_pool (Client.core c)
          (Engine.connections (Client.core c)
           ++ [mkConnection conn (Client.freshID i)])
          (net_write (Engine.net (Client.core c)) conn
                     (Engine.id (Client.core c))))
       (Client.connectionsCount c)).
Proof.
  intros Hd Hw; unfold Client.doDialConn; rewrite Hd, Hw; reflexivity.
Qed.

(** A dial that does not join the pool leaves it as it is. *)
Lemma doDialConn_failed c i :
  Client.dialed i = None \/ Client.idWritten i = false ->
  Engine.connections (Client.core (snd (Client.doDialConn c i)))
  = Engine.connections (Client.core c)
  /\ Client.connectionsCount (snd (Client.doDialConn c i))
     = Client.connectionsCount c
  /\ wire (Engine.net (Client.core (snd (Client.doDialConn c i))))
     = wire (Engine.net (Client.core c)).
Proof.
  intros H; unfold Client.doDialConn.
  destruct (Client.dialed i) as [conn|]; [|repeat split].
  destruct H as [H|H]; [discriminate|]; rewrite H; repeat split.
Qed.

Lemma doDialConns_joined : forall ins c,
  Forall (fun i => Client.dialed i <> None /\ Client.idWritten i = true) ins ->
  Pool.Count (Engine.connections (Client.core (Client.doDialConns ins c)))
  = Pool.Count (Engine.connections (Client.core c)) + Slice.len ins
  /\ Client.connectionsCount (Client.doDialConns ins c)
     = Client.connectionsCount c.
Proof.
  induction ins as [|i ins IH]; intros c Hall.
  - cbn; unfold Slice.len; cbn; split; [lia | reflexivity].
  - inversion Hall as [|? ? [Hd Hw] Hrest]; subst.
    destruct (Client.dialed i) as [conn|] eqn:Ed; [|congruence].
    unfold Client.doDialConns in *; cbn [fold_left].
    rewrite (doDialConn_joined c i conn Ed Hw); cbn [snd].
    match goal with
    | |- context [fold_left _ ins ?c1] =>
      destruct (IH c1 Hrest) as [Hc Hk]; rewrite Hc, Hk
    end.
    cbn [Client.core Client.connectionsCount Engine.with_pool
         Engine.connections].
    unfold Pool.Count; rewrite len_app; unfold Slice.len; cbn [length].
    split; [lia | reflexivity].
Qed.

Lemma doDialConns_failed : forall ins c,
  Forall (fun i => Client.dialed i = None \/ Client.idWritten i = false) ins ->
  Engine.connections (Client.core (Client.doDialConns ins c))
  = Engine.connections (Client.core c)
  /\ wire (Engine.net (Client.core (Client.doDialConns ins c)))
     = wire (Engine.net (Client.core c)).
Proof.
  induction ins as [|i ins IH]; intros c Hall; [split; reflexivity|].
  inversion Hall as [|? ? Hi Hrest]; subst.
  unfold Client.doDialConns in *; cbn [fold_left].
  destruct (IH (snd (Client.doDialConn c i)) Hrest) as [Hc Hw].
  destruct (doDialConn_failed c i Hi) as (Hc1 & _ & Hw1).
  rewrite Hc, Hw, Hc1, Hw1; split; reflexivity.
Qed.

Lemma Forall_firstn_keep {A} (P : A -> Prop) : forall n l,
  Forall P l -> Forall P (firstn n l).
Proof.
  induction n as [|n IH]; intros [|x l] H; cbn; try constructor;
    inversion H; subst; auto.
Qed.

(** X13.  The dial maintainer.  A pass starts as many dials as carriers
    are missing from the target, and none when the pool is at or above it.
    When the dials of a pass all end in time and all join, the count after
    the pass is the target if it was below and unchanged otherwise; dials
    that fail leave the pool and the wire untouched.  But a dial never
    looks at the target: [k] dials that join add [k] carriers whatever the
    count, so dials still in flight when a later pass counts the pool can
    take it above the target. *)
Theorem dial_maintainer (c : Client.t) (ins : list Client.DialIn) :
  let count := Pool.Count (Engine.connections (Client.core c)) in
  let count_after := fun c' =>
    Pool.Count (Engine.connections (Client.core c')) in
  let joins := fun i =>
    Client.dialed i <> None /\ Client.idWritten i = true in
  let fails := fun i =>
    Client.dialed i = None \/ Client.idWritten i = false in
  Client.dialConn_body c = Z.max 0 (Client.connectionsCount c - count)
  /\ (Forall joins ins -> Client.dialConn_body c <= Slice.len ins ->
      count_after (snd (Client.dialConn_pass c ins))
      = Z.max count (Client.connectionsCount c))
  /\ (Forall fails ins ->
      Engine.connections (Client.core (snd (Client.dialConn_pass c ins)))
      = Engine.connections (Client.core c)
      /\ wire (Engine.net (Client.core (snd (Client.dialConn_pass c ins))))
         = wire (Engine.net (Client.core c)))
  /\ (Forall joins ins ->
      count_after (Client.doDialConns ins c) = count + Slice.len ins).
Proof.
  cbv zeta.
  assert (Hbody : Client.dialConn_body c
                  = Z.max 0 (Client.connectionsCount c
                             - Pool.Count (Engine.connections (Client.core c)))).
  { unfold Client.dialConn_body.
    destruct (Z.ltb_spec 0 (Client.connectionsCount c
                            - Pool.Count
                                (Engine.connections (Client.core c)))); lia. }
  split; [exact Hbody|]; split; [|split].
  - intros Hall Hlen; unfold Client.dialConn_pass; cbn [snd].
    set (d := Client.dialConn_body c) in *.
    assert (Hd0 : 0 <= d) by lia.
    destruct (doDialConns_joined (firstn (Z.to_nat d) ins) c) as [Hc _];
      [apply Forall_firstn_keep; exact Hall|].
    rewrite Hc.
    replace (Slice.len (firstn (Z.to_nat d) ins)) with d
      by (unfold Slice.len in *; rewrite length_firstn; lia).
    lia.
  - intros Hall; unfold Client.dialConn_pass; cbn [snd].
    apply doDialConns_failed, Forall_firstn_keep; exact Hall.
  - intros Hall; apply doDialConns_joined; exact Hall.
Qed.

(* ================================================================== *)
(** * The life of a carrier *)

Lemma deadline_bytes rd intime :
  bytes_of (fst (SetReadDeadline rd intime))
  ++ bytes_of (snd (SetReadDeadline rd intime))
  = bytes_of rd.
Proof.
  unfold SetReadDeadline, bytes_of; cbn [fst snd segs].
  rewrite <- concat_app, firstn_skipn; reflexivity.
Qed.

(** What the handler reads once the deadline is cleared, when the 16
    bytes arrived in time: the stream from its 17th byte on. *)
Lemma handleConn_auth_read rd intime :
  16 <= Slice.len (bytes_of (fst (SetReadDeadline rd intime))) ->
  let r := io.ReadFull (fst (SetReadDeadline rd intime)) 16 in
  err r = None
  /\ got r = firstn 16 (bytes_of rd)
  /\ bytes_of (ClearDeadline (rest r) (snd (SetReadDeadline rd intime)))
     = skipn 16 (bytes_of rd).
Proof.
  intros Hge r.
  destruct (ReadFull_enough (fst (SetReadDeadline rd intime)) 16
              ltac:(lia)) as (E & G & R & _).
  fold r in E, G, R; change (Z.to_nat 16) with 16%nat in *.
  assert (Hl : (16 <= length (bytes_of (fst (SetReadDeadline rd intime))))%nat)
    by (unfold Slice.len in Hge; lia).
  split; [exact E|]; split.
  - rewrite G, <- (deadline_bytes rd intime), firstn_app.
    replace (16 - length (bytes_of (fst (SetReadDeadline rd intime))))%nat
      with 0%nat by lia.
    rewrite firstn_0, app_nil_r; reflexivity.
  - unfold ClearDeadline, bytes_of at 1; cbn [segs].
    rewrite concat_app; fold (bytes_of (rest r)).
    fold (bytes_of (snd (SetReadDeadline rd intime))).
    rewrite R, <- (deadline_bytes rd intime) at 1.
    rewrite skipn_app.
    replace (16 - length (bytes_of (fst (SetReadDeadline rd intime))))%nat
      with 0%nat by lia.
    reflexivity.
Qed.

(** X14.  The handshake.  A dial that succeeds writes the initiator's
    endpoint id, and nothing else, on the new carrier.  A responder
    configured with the same 16-byte id that receives those bytes within
    the deadline, followed by the frames of the payloads [ps], accepts the
    connection under a new handle, offers the payloads (none of the id
    bytes) to its inbound queue in order, as far as there is room, and when
    the stream ends takes the carrier out of the pool again and closes
    it: the pool is what it was before the connection. *)
Theorem handshake (cl : Client.t) (sv : Server.t) (i : Client.DialIn)
        (kc ks : NetConn) (rd : Stream) (intime : nat) (fresh : UUID)
        (ps : list (list byte)) :
  Client.dialed i = Some kc -> Client.idWritten i = true ->
  length (Engine.id (Client.core cl)) = 16%nat ->
  Engine.id (Server.core sv) = Engine.id (Client.core cl) ->
  bytes_of rd = Engine.id (Client.core cl) ++ concat (map frame ps) ->
  16 <= Slice.len (bytes_of (fst (SetReadDeadline rd intime))) ->
  Forall (fun p => 1 <= Slice.len p <= 65535) ps ->
  closed (Engine.remoteToDeviceChannel (Server.core sv)) = false ->
  1 <= cap (Engine.remoteToDeviceChannel (Server.core sv)) ->
  ~ In fresh (map ID (Engine.connections (Server.core sv))) ->
  let e := Server.core sv in
  let q := Engine.remoteToDeviceChannel e in
  wire (Engine.net (Client.core (snd (Client.doDialConn cl i))))
  = wire (Engine.net (Client.core cl)) ++ [(kc, Engine.id (Client.core cl))]
  /\ Server.handleConn sv ks rd intime fresh
     = (Served Broke,
        Server.mk
          (Engine.with_net
             (Engine.with_queue e RemoteToDevice
                (mkChan (buf q ++ firstn (Z.to_nat (cap q - Slice.len (buf q)))
                                         ps)
                        (cap q) false))
             (net_close (Engine.net e) ks))
          (Server.lnClosed sv)).
Proof.
  intros Hd Hw Hlen Hid Hbytes Hge Hall Hopen _ Hfresh e q.
  split; [rewrite (doDialConn_joined cl i kc Hd Hw); reflexivity|].
  destruct (handleConn_auth_read rd intime Hge) as (E & G & R).
  rewrite Hbytes in G, R.
  rewrite firstn_app, <- Hlen, Nat.sub_diag, firstn_all, firstn_0,
    app_nil_r in G.
  rewrite skipn_app, <- Hlen, Nat.sub_diag, skipn_all in R.
  cbn [app skipn] in R.
  unfold Server.handleConn.
  destruct (SetReadDeadline rd intime) as [vis later]; cbn [fst snd] in *.
  rewrite E, G, <- Hid, Equal_refl; cbn [negb].
  subst e q; destruct sv as [[ie de se pe q1e [b k c0] ne tre] ln].
  cbn [Server.core Server.lnClosed Engine.remoteToDeviceChannel closed buf
       cap Engine.connections Engine.net Engine.with_pool Engine.id
       Engine.device Engine.status Engine.deviceToRemoteChannel Engine.trace]
    in *.
  subst c0; unfold Pool.Add, NewConnection; cbn [ID].
  cbn [Engine.with_pool Engine.id Engine.device Engine.status
       Engine.connections Engine.deviceToRemoteChannel
       Engine.remoteToDeviceChannel Engine.net Engine.trace].
  destruct (readLoop_run ie de se (pe ++ [mkConnection ks fresh]) q1e ne tre
              k ps (S (length (bytes_of (ClearDeadline
                                           (rest (io.ReadFull vis 16)) later))))
              b _ Hall R ltac:(lia)) as (conn' & El & _).
  match goal with
  | |- context [Engine.readLoop ?e0 ?s0] =>
    change (Engine.readLoop e0 s0)
      with (loop (fun _ : Engine.t * Stream => true) Engine.readLoop_body
                 (repeat tt (S (length (bytes_of s0))))
                 (Engine.mk ie de se (pe ++ [mkConnection ks fresh]) q1e
                            (mkChan b k false) ne tre, s0))
  end.
  rewrite El.
  unfold Engine.RemoveAndClose; cbn [Engine.connections Engine.net].
  rewrite RemoveAndClose_added by exact Hfresh.
  reflexivity.
Qed.

Lemma handshake_witness :
  let id16 := repeat x2a 16 in
  let cl := Client.NewClient (mkConfig id16 "client" 1 1 4 4) in
  let sv := Server.NewServer (mkConfig id16 "server" 1 1 4 4) in
  let rd := mkStream [repeat x2a 10; repeat x2a 6 ++ [x00; x01]; [x45]] EOF in
  bytes_of rd = id16 ++ concat (map frame [[x45]])
  /\ 16 <= Slice.len (bytes_of (fst (SetReadDeadline rd 2)))
  /\ Server.handleConn sv 3%nat rd 2 [x09]
     = (Served Broke,
        Server.mk
          (Engine.with_net
             (Engine.pushed (Server.core sv) RemoteToDevice [x45])
             (mkNet [3%nat] []))
          false).
Proof.
  cbv zeta.
  set (id16 := repeat x2a 16).
  set (cl := Client.NewClient (mkConfig id16 "client" 1 1 4 4)).
  set (sv := Server.NewServer (mkConfig id16 "server" 1 1 4 4)).
  set (rd := mkStream [repeat x2a 10; repeat x2a 6 ++ [x00; x01]; [x45]] EOF).
  assert (H1 : bytes_of rd
               = Engine.id (Client.core cl) ++ concat (map frame [[x45]]))
    by reflexivity.
  assert (H2 : 16 <= Slice.len (bytes_of (fst (SetReadDeadline rd 2))))
    by (vm_compute; discriminate).
  assert (H3 : Forall (fun p => 1 <= Slice.len p <= 65535) [[x45]])
    by (repeat constructor; unfold Slice.len; cbn; lia).
  split; [exact H1|]; split; [exact H2|].
  exact (proj2 (handshake cl sv (Client.mkDialIn (Some 8%nat) true [x07])
                          8%nat 3%nat rd 2 [x09] [[x45]]
                          eq_refl eq_refl eq_refl eq_refl H1 H2 H3 eq_refl
                          ltac:(cbn; lia) ltac:(cbn; tauto))).
Defined.

(** X15.  A dialed carrier, from dial to eviction.  A dial that succeeds
    under a handle new to the pool puts the carrier in the pool, where the
    pick can find it; when the carrier then delivers the frames of [ps] and
    fails, the initiator's read task has offered the payloads to the
    inbound queue in order, as far as there was room, and on its way out
    removes exactly that carrier and closes its connection: the pool is
    what it was before the dial. *)
Theorem dialed_carrier_lifecycle (cl : Client.t) (i : Client.DialIn)
        (kc : NetConn) (rd : Stream) (ps : list (list byte)) :
  Client.dialed i = Some kc -> Client.idWritten i = true ->
  ~ In (Client.freshID i)
       (map ID (Engine.connections (Client.core cl))) ->
  closed (Engine.remoteToDeviceChannel (Client.core cl)) = false ->
  1 <= cap (Engine.remoteToDeviceChannel (Client.core cl)) ->
  Forall (fun p => 1 <= Slice.len p <= 65535) ps ->
  bytes_of rd = concat (map frame ps) ->
  let e := Client.core cl in
  let q := Engine.remoteToDeviceChannel e in
  let cl1 := snd (Client.doDialConn cl i) in
  fst (Client.doDialConn cl i) = Client.Joined (Client.freshID i)
  /\ Engine.connections (Client.core cl1)
     = Engine.connections e ++ [mkConnection kc (Client.freshID i)]
  /\ Client.handleRemotePacket cl1 (Client.freshID i) rd
     = (Broke,
        Client.mk
          (Engine.with_net
             (Engine.with_queue e RemoteToDevice
                (mkChan (buf q ++ firstn (Z.to_nat (cap q - Slice.len (buf q)))
                                         ps)
                        (cap q) false))
             (net_close (net_write (Engine.net e) kc (Engine.id e)) kc))
          (Client.connectionsCount cl)).
Proof.
  intros Hd Hw Hfresh Hopen _ Hall Hbytes e q cl1.
  unfold cl1; rewrite (doDialConn_joined cl i kc Hd Hw); cbn [fst snd].
  split; [reflexivity|]; split; [reflexivity|].
  subst e q; destruct cl as [[ie de se pe q1e [b k c0] ne tre] cnt].
  cbn [Client.core Client.connectionsCount Engine.remoteToDeviceChannel
       closed buf cap Engine.connections Engine.net Engine.with_pool
       Engine.id Engine.device Engine.status Engine.deviceToRemoteChannel
       Engine.trace] in *.
  subst c0; unfold Client.handleRemotePacket; cbn [Client.core].
  destruct (readLoop_run ie de se
              (pe ++ [mkConnection kc (Client.freshID i)]) q1e
              (net_write ne kc ie) tre k ps
              (S (length (bytes_of rd))) b rd Hall Hbytes ltac:(lia))
    as (conn' & El & _).
  match goal with
  | |- context [Engine.readLoop ?e0 ?s0] =>
    change (Engine.readLoop e0 s0)
      with (loop (fun _ : Engine.t * Stream => true) Engine.readLoop_body
                 (repeat tt (S (length (bytes_of s0))))
                 (Engine.mk ie de se
                            (pe ++ [mkConnection kc (Client.freshID i)]) q1e
                            (mkChan b k false) (net_write ne kc ie) tre, s0))
  end.
  rewrite El.
  unfold Engine.RemoveAndClose; cbn [Engine.connections Engine.net].
  rewrite RemoveAndClose_added by exact Hfresh.
  reflexivity.
Qed.

Lemma dialed_carrier_lifecycle_witness :
  let cl := Client.NewClient (mkConfig [x2a] "client" 1 1 4 4) in
  let i := Client.mkDialIn (Some 8%nat) true [x07] in
  let rd := mkStream [[x00; x01]; [x45]] ErrClosed in
  bytes_of rd = concat (map frame [[x45]])
  /\ Client.handleRemotePacket (snd (Client.doDialConn cl i)) [x07] rd
     = (Broke,
        Client.mk
          (Engine.with_net
             (Engine.pushed (Client.core cl) RemoteToDevice [x45])
             (mkNet [8%nat] [(8%nat, [x2a])]))
          1).
Proof.
  cbv zeta.
  set (cl := Client.NewClient (mkConfig [x2a] "client" 1 1 4 4)).
  set (i := Client.mkDialIn (Some 8%nat) true [x07]).
  set (rd := mkStream [[x00; x01]; [x45]] ErrClosed).
  assert (H1 : bytes_of rd = concat (map frame [[x45]])) by reflexivity.
  assert (H3 : Forall (fun p => 1 <= Slice.len p <= 65535) [[x45]])
    by (repeat constructor; unfold Slice.len; cbn; lia).
  split; [exact H1|].
  exact (proj2 (proj2
           (dialed_carrier_lifecycle cl i 8%nat rd [[x45]]
              eq_refl eq_refl ltac:(cbn; tauto) eq_refl
              ltac:(cbn; lia) H3 H1))).
Defined.

(* ================================================================== *)
(** * After shutdown *)

(** What [Close] returns on an engine whose queues are open. *)
Lemma Server_Close_open (e : Engine.t) (ln : bool) :
  closed (Engine.deviceToRemoteChannel e) = false ->
  closed (Engine.remoteToDeviceChannel e) = false ->
  Server.Close (Server.mk e ln)
  = Some (Server.mk
            (Engine.mk (Engine.id e)
               (mkTun true (delivered (Engine.device e))) false []
               (mkChan [] (cap (Engine.deviceToRemoteChannel e)) true)
               (mkChan [] (cap (Engine.remoteToDeviceChannel e)) true)
               (mkNet (closedConns (Engine.net e)
                       ++ map Conn (Engine.connections e))
                      (wire (Engine.net e)))
               (Engine.trace e
                ++ [EvStatusOff; EvListenerClose; EvDeviceClose;
                    EvQueueClose DeviceToRemote; EvQueueClose RemoteToDevice;
                    EvCloseAll; EvWait; EvCloseAll;
                    EvQueueDrain DeviceToRemote;
                    EvQueueDrain RemoteToDevice]))
            true).
Proof.
  intros H1 H2; unfold Server.Close; cbv zeta.
  match goal with
  | |- context [Engine.closeQueue ?e0 DeviceToRemote] =>
    pose proof (Close_tail e0 H1 H2) as Ht
  end.
  cbv zeta in Ht.
  destruct (Engine.closeQueue _ DeviceToRemote) as [e1|]; [|discriminate].
  destruct (Engine.closeQueue e1 RemoteToDevice) as [e2|]; [|discriminate].
  destruct (Engine.drainQueue _ DeviceToRemote) as [e6|]; [|discriminate].
  destruct (Engine.drainQueue e6 RemoteToDevice) as [e7|]; [|discriminate].
  injection Ht as ->; cbn; rewrite <- !app_assoc; reflexivity.
Qed.

Lemma Client_Close_open (e : Engine.t) (n : Z) :
  closed (Engine.deviceToRemoteChannel e) = false ->
  closed (Engine.remoteToDeviceChannel e) = false ->
  Client.Close (Client.mk e n)
  = Some (Client.mk
            (Engine.mk (Engine.id e)
               (mkTun true (delivered (Engine.device e))) false []
               (mkChan [] (cap (Engine.deviceToRemoteChannel e)) true)
               (mkChan [] (cap (Engine.remoteToDeviceChannel e)) true)
               (mkNet (closedConns (Engine.net e)
                       ++ map Conn (Engine.connections e))
                      (wire (Engine.net e)))
               (Engine.trace e
                ++ [EvStatusOff; EvDeviceClose;
                    EvQueueClose DeviceToRemote; EvQueueClose RemoteToDevice;
                    EvCloseAll; EvWait; EvCloseAll;
                    EvQueueDrain DeviceToRemote;
                    EvQueueDrain RemoteToDevice]))
            n).
Proof.
  intros H1 H2; unfold Client.Close; cbv zeta.
  match goal with
  | |- context [Engine.closeQueue ?e0 DeviceToRemote] =>
    pose proof (Close_tail e0 H1 H2) as Ht
  end.
  cbv zeta in Ht.
  destruct (Engine.closeQueue _ DeviceToRemote) as [e1|]; [|discriminate].
  destruct (Engine.closeQueue e1 RemoteToDevice) as [e2|]; [|discriminate].
  destruct (Engine.drainQueue _ DeviceToRemote) as [e6|]; [|discriminate].
  destruct (Engine.drainQueue e6 RemoteToDevice) as [e7|]; [|discriminate].
  injection Ht as ->; cbn; rewrite <- !app_assoc; reflexivity.
Qed.

(** [Close] on an engine one of whose queues is already closed: the
    [close] of that channel panics. *)
Lemma Server_Close_closed (s : Server.t) :
  closed (Engine.deviceToRemoteChannel (Server.core s)) = true
  \/ closed (Engine.remoteToDeviceChannel (Server.core s)) = true ->
  Server.Close s = None.
Proof.
  destruct s as [[i d st p [b1 k1 c1] [b2 k2 c2] n tr] ln]; cbn.
  intros [->| ->]; unfold Server.Close; cbn; [reflexivity|].
  destruct c1; reflexivity.
Qed.

Lemma Client_Close_closed (c : Client.t) :
  closed (Engine.deviceToRemoteChannel (Client.core c)) = true
  \/ closed (Engine.remoteToDeviceChannel (Client.core c)) = true ->
  Client.Close c = None.
Proof.
  destruct c as [[i d st p [b1 k1 c1] [b2 k2 c2] n tr] cnt]; cbn.
  intros [->| ->]; unfold Client.Close; cbn; [reflexivity|].
  destruct c1; reflexivity.
Qed.

Lemma Server_Close_inv s s' :
  Server.Close s = Some s' ->
  closed (Engine.deviceToRemoteChannel (Server.core s)) = false
  /\ closed (Engine.remoteToDeviceChannel (Server.core s)) = false.
Proof.
  intros E.
  destruct (closed (Engine.deviceToRemoteChannel (Server.core s))) eqn:E1;
    [rewrite Server_Close_closed in E by (left; exact E1); discriminate|].
  destruct (closed (Engine.remoteToDeviceChannel (Server.core s))) eqn:E2;
    [rewrite Server_Close_closed in E by (right; exact E2); discriminate|].
  split; reflexivity.
Qed.

Lemma Client_Close_inv c c' :
  Client.Close c = Some c' ->
  closed (Engine.deviceToRemoteChannel (Client.core c)) = false
  /\ closed (Engine.remoteToDeviceChannel (Client.core c)) = false.
Proof.
  intros E.
  destruct (closed (Engine.deviceToRemoteChannel (Client.core c))) eqn:E1;
    [rewrite Client_Close_closed in E by (left; exact E1); discriminate|].
  destruct (closed (Engine.remoteToDeviceChannel (Client.core c))) eqn:E2;
    [rewrite Client_Close_closed in E by (right; exact E2); discriminate|].
  split; reflexivity.
Qed.

(** The steps of [Close] before its first [close] of a channel leave
    the queues, the pool and the connections as they were. *)
Lemma Server_Close_begun (s : Server.t) :
  let e := Server.core
             (Server.on_core Engine.deviceClose
                (Server.lnClose (Server.on_core Engine.setStatusFalse s))) in
  Engine.deviceToRemoteChannel e = Engine.deviceToRemoteChannel (Server.core s)
  /\ Engine.remoteToDeviceChannel e
     = Engine.remoteToDeviceChannel (Server.core s)
  /\ Engine.connections e = Engine.connections (Server.core s)
  /\ Engine.net e = Engine.net (Server.core s).
Proof. destruct s as [[i d st p q1 q2 n tr] ln]; repeat split. Qed.

Lemma Client_Close_begun (c : Client.t) :
  let e := Client.core
             (Client.on_core Engine.deviceClose
                (Client.on_core Engine.setStatusFalse c)) in
  Engine.deviceToRemoteChannel e = Engine.deviceToRemoteChannel (Client.core c)
  /\ Engine.remoteToDeviceChannel e
     = Engine.remoteToDeviceChannel (Client.core c)
  /\ Engine.connections e = Engine.connections (Client.core c)
  /\ Engine.net e = Engine.net (Client.core c).
Proof. destruct c as [[i d st p q1 q2 n tr] cnt]; repeat split. Qed.

(** The first [close] of a channel in [Close], on a channel that is
    closed already or not. *)
Lemma closeQueue_first e :
  (closed (Engine.deviceToRemoteChannel e) = true ->
   Engine.closeQueue e DeviceToRemote = None)
  /\ (closed (Engine.deviceToRemoteChannel e) = false ->
      closed (Engine.remoteToDeviceChannel e) = true ->
      exists e1,
        Engine.closeQueue e DeviceToRemote = Some e1
        /\ Engine.closeQueue e1 RemoteToDevice = None
        /\ Engine.connections e1 = Engine.connections e
        /\ Engine.net e1 = Engine.net e).
Proof.
  destruct e as [i d st p [b1 k1 c1] [b2 k2 c2] n tr]; cbn.
  split.
  - intros ->; reflexivity.
  - intros -> ->; eexists; repeat split.
Qed.

(** X16.  [Close] is for one call.  A [Close] on an engine one of whose
    queues is already closed panics at the [close] of that channel: by
    then it has set [status] to false and closed the device (and the
    listener), but it has closed no carrier and has not reached the join.
    The state a [Close] leaves, in a run in which its join returns, has
    both queues closed; so a second [Close], on either engine, panics at
    its first [close] of a channel. *)
Theorem Close_only_once (s : Server.t) (c : Client.t) :
  let begun :=
    Server.core
      (Server.on_core Engine.deviceClose
         (Server.lnClose (Server.on_core Engine.setStatusFalse s))) in
  let cbegun :=
    Client.core
      (Client.on_core Engine.deviceClose
         (Client.on_core Engine.setStatusFalse c)) in
  (closed (Engine.deviceToRemoteChannel (Server.core s)) = true ->
   Server.Close s = None
   /\ Engine.closeQueue begun DeviceToRemote = None)
  /\ (closed (Engine.deviceToRemoteChannel (Server.core s)) = false ->
      closed (Engine.remoteToDeviceChannel (Server.core s)) = true ->
      Server.Close s = None
      /\ exists e,
           Engine.closeQueue begun DeviceToRemote = Some e
           /\ Engine.closeQueue e RemoteToDevice = None
           /\ Engine.connections e = Engine.connections (Server.core s)
           /\ Engine.net e = Engine.net (Server.core s))
  /\ (forall s',
        Server.Close s = Some s' ->
        closed (Engine.deviceToRemoteChannel (Server.core s')) = true
        /\ closed (Engine.remoteToDeviceChannel (Server.core s')) = true
        /\ Server.Close s' = None)
  /\ (closed (Engine.deviceToRemoteChannel (Client.core c)) = true ->
      Client.Close c = None
      /\ Engine.closeQueue cbegun DeviceToRemote = None)
  /\ (closed (Engine.deviceToRemoteChannel (Client.core c)) = false ->
      closed (Engine.remoteToDeviceChannel (Client.core c)) = true ->
      Client.Close c = None
      /\ exists e,
           Engine.closeQueue cbegun DeviceToRemote = Some e
           /\ Engine.closeQueue e RemoteToDevice = None
           /\ Engine.connections e = Engine.connections (Client.core c)
           /\ Engine.net e = Engine.net (Client.core c))
  /\ (forall c',
        Client.Close c = Some c' ->
        closed (Engine.deviceToRemoteChannel (Client.core c')) = true
        /\ closed (Engine.remoteToDeviceChannel (Client.core c')) = true
        /\ Client.Close c' = None).
Proof.
  intros begun cbegun.
  destruct (Server_Close_begun s) as (Sq1 & Sq2 & Sp & Sn).
  destruct (Client_Close_begun c) as (Cq1 & Cq2 & Cp & Cn).
  fold begun in Sq1, Sq2, Sp, Sn; fold cbegun in Cq1, Cq2, Cp, Cn.
  destruct (closeQueue_first begun) as [Sa Sb].
  destruct (closeQueue_first cbegun) as [Ca Cb].
  rewrite Sq1 in Sa, Sb; rewrite Sq2 in Sb.
  rewrite Cq1 in Ca, Cb; rewrite Cq2 in Cb.
  split; [|split; [|split; [|split; [|split]]]].
  - intros H1; split; [apply Server_Close_closed; left; exact H1|].
    exact (Sa H1).
  - intros H1 H2; split; [apply Server_Close_closed; right; exact H2|].
    destruct (Sb H1 H2) as (e & E1 & E2 & Ep & En).
    exists e; rewrite Ep, En, Sp, Sn; repeat split; assumption.
  - intros s' E; destruct (Server_Close_inv _ _ E) as [H1 H2].
    destruct s as [e ln]; cbn [Server.core] in *.
    rewrite Server_Close_open in E by assumption.
    injection E as <-; cbn [Server.core Engine.deviceToRemoteChannel
                            Engine.remoteToDeviceChannel closed].
    split; [reflexivity|]; split; [reflexivity|].
    apply Server_Close_closed; left; reflexivity.
  - intros H1; split; [apply Client_Close_closed; left; exact H1|].
    exact (Ca H1).
  - intros H1 H2; split; [apply Client_Close_closed; right; exact H2|].
    destruct (Cb H1 H2) as (e & E1 & E2 & Ep & En).
    exists e; rewrite Ep, En, Cp, Cn; repeat split; assumption.
  - intros c' E; destruct (Client_Close_inv _ _ E) as [H1 H2].
    destruct c as [e n]; cbn [Client.core] in *.
    rewrite Client_Close_open in E by assumption.
    injection E as <-; cbn [Client.core Engine.deviceToRemoteChannel
                            Engine.remoteToDeviceChannel closed].
    split; [reflexivity|]; split; [reflexivity|].
    apply Client_Close_closed; left; reflexivity.
Qed.

Lemma Close_only_once_witness :
  let s := Server.NewServer (mkConfig [] "server" 1 1 4 4) in
  let c := Client.NewClient (mkConfig [] "client" 1 1 4 4) in
  (exists s', Server.Close s = Some s' /\ Server.Close s' = None)
  /\ (exists c', Client.Close c = Some c' /\ Client.Close c' = None).
Proof.
  cbv zeta.
  set (s := Server.NewServer (mkConfig [] "server" 1 1 4 4)).
  set (c := Client.NewClient (mkConfig [] "client" 1 1 4 4)).
  destruct (Close_only_once s c) as (_ & _ & Hs & _ & _ & Hc).
  split.
  - destruct (Server.Close s) as [s'|] eqn:E; [|discriminate E].
    exists s'; split; [reflexivity | exact (proj2 (proj2 (Hs s' eq_refl)))].
  - destruct (Client.Close c) as [c'|] eqn:E; [|discriminate E].
    exists c'; split; [reflexivity | exact (proj2 (proj2 (Hc c' eq_refl)))].
Defined.

(** X17.  After [Close].  On the engine a [Close] has returned, [status]
    is false and the pool is empty, so the TUN reader, every worker, the
    TUN writer and the accept loop (the dial maintainer on the initiator)
    return at their next loop test, whatever input they are given, without
    changing the engine; nothing is handed to a handler or dialed, and a
    pick returns nil. *)
Theorem after_Close_all_stop (s s' : Server.t) (c c' : Client.t) :
  (Server.Close s = Some s' ->
   Engine.status (Server.core s') = false
   /\ Engine.connections (Server.core s') = []
   /\ (forall draw,
         Pool.Rand (Engine.connections (Server.core s')) draw = None)
   /\ (forall reads, Server.handleDevicePacket reads s' = (Stopped, s'))
   /\ (forall ins, Server.handleDeviceToRemoteChannel ins s' = (Stopped, s'))
   /\ (forall oks, Server.handleRemoteToDeviceChannel oks s' = (Stopped, s'))
   /\ (forall ins, Server.acceptConn ins s' = (Stopped, (s', []))))
  /\ (Client.Close c = Some c' ->
      Engine.status (Client.core c') = false
      /\ Engine.connections (Client.core c') = []
      /\ (forall reads, Client.handleDevicePacket reads c' = (Stopped, c'))
      /\ (forall ins, Client.handleDeviceToRemoteChannel ins c' = (Stopped, c'))
      /\ (forall oks, Client.handleRemoteToDeviceChannel oks c' = (Stopped, c'))
      /\ (forall passes, Client.dialConn passes c' = (Stopped, c'))).
Proof.
  split; intros E.
  - destruct (Server_Close_inv _ _ E) as [H1 H2].
    destruct s as [e ln]; cbn [Server.core] in *.
    rewrite Server_Close_open in E by assumption.
    injection E as <-; cbn [Server.core Engine.status Engine.connections].
    repeat split; intros;
      unfold Server.handleDevicePacket, Server.handleDeviceToRemoteChannel,
        Server.handleRemoteToDeviceChannel, Server.acceptConn,
        Engine.handleDevicePacket, Engine.handleDeviceToRemoteChannel,
        Engine.handleRemoteToDeviceChannel;
      cbn [Server.core Server.lnClosed];
      rewrite loop_stopped by reflexivity; reflexivity.
  - destruct (Client_Close_inv _ _ E) as [H1 H2].
    destruct c as [e n]; cbn [Client.core] in *.
    rewrite Client_Close_open in E by assumption.
    injection E as <-; cbn [Client.core Engine.status Engine.connections].
    repeat split; intros;
      unfold Client.handleDevicePacket, Client.handleDeviceToRemoteChannel,
        Client.handleRemoteToDeviceChannel, Client.dialConn,
        Engine.handleDevicePacket, Engine.handleDeviceToRemoteChannel,
        Engine.handleRemoteToDeviceChannel;
      cbn [Client.core Client.connectionsCount];
      rewrite loop_stopped by reflexivity; reflexivity.
Qed.

Lemma after_Close_all_stop_witness :
  let s := Server.NewServer (mkConfig [] "server" 1 1 4 4) in
  exists s',
    Server.Close s = Some s'
    /\ Server.handleDevicePacket [TunData 1 [x45]] s' = (Stopped, s')
    /\ Server.acceptConn [Some 3%nat] s' = (Stopped, (s', [])).
Proof.
  cbv zeta.
  set (s := Server.NewServer (mkConfig [] "server" 1 1 4 4)).
  destruct (Server.Close s) as [s'|] eqn:E; [|discriminate E].
  exists s'; split; [reflexivity|].
  destruct (proj1 (after_Close_all_stop
                     s s' (Client.NewClient (mkConfig [] "client" 1 1 4 4))
                     (Client.NewClient (mkConfig [] "client" 1 1 4 4))) E)
    as (_ & _ & _ & Hr & _ & _ & Ha).
  split; [apply Hr | apply Ha].
Defined.

(* ================================================================== *)
(** * The accept loop *)

Lemma acceptConn_run s : forall conns acc,
  Engine.status (Server.core s) = true ->
  Server.lnClosed s = false ->
  loop (fun x : Server.t * list NetConn =>
          Engine.status (Server.core (fst x)))
       Server.acceptConn_body (map Some conns) (s, acc)
  = (Looping, (s, acc ++ conns))
  /\ forall more,
       loop (fun x : Server.t * list NetConn =>
               Engine.status (Server.core (fst x)))
            Server.acceptConn_body (map Some conns ++ None :: more) (s, acc)
       = (Broke, (s, acc ++ conns)).
Proof.
  intros conns; induction conns as [|k conns IH]; intros acc Hst Hln.
  - cbn [map app loop fst]; rewrite Hst, app_nil_r; split; [reflexivity|].
    intros more; cbn [Server.acceptConn_body]; unfold Server.Accept.
    rewrite Hln; reflexivity.
  - destruct (IH (acc ++ [k]) Hst Hln) as [H1 H2].
    rewrite <- app_assoc in H1, H2; cbn [app] in H1, H2.
    cbn [map app loop fst Server.acceptConn_body]; unfold Server.Accept.
    rewrite Hst, Hln; split; [exact H1 | exact H2].
Qed.

(** X18.  The accept loop.  While [status] is true and the listener is
    open, the accept loop hands every accepted connection to a handler, in
    the order accepted, and never touches the engine itself; the first
    [Accept] that returns an error ends the loop, and what would have
    arrived later is not accepted.  Once the listener is closed, the next
    [Accept] ends the loop with nothing handed over. *)
Theorem acceptConn_hands_over (s : Server.t) (conns : list NetConn) :
  Engine.status (Server.core s) = true ->
  (Server.lnClosed s = false ->
     Server.acceptConn (map Some conns) s = (Looping, (s, conns))
     /\ forall more,
          Server.acceptConn (map Some conns ++ None :: more) s
          = (Broke, (s, conns)))
  /\ (Server.lnClosed s = true ->
      forall incoming more,
        Server.acceptConn (incoming :: more) s = (Broke, (s, []))).
Proof.
  intros Hst; split; intros Hln.
  - exact (acceptConn_run s conns [] Hst Hln).
  - intros incoming more; unfold Server.acceptConn.
    cbn [loop fst Server.acceptConn_body]; unfold Server.Accept.
    rewrite Hst, Hln; reflexivity.
Qed.

Lemma acceptConn_hands_over_witness :
  let s := Server.NewServer (mkConfig [] "server" 1 1 4 4) in
  Engine.status (Server.core s) = true
  /\ Server.lnClosed s = false
  /\ Server.acceptConn [Some 3%nat; Some 4%nat; None; Some 5%nat] s
     = (Broke, (s, [3%nat; 4%nat])).
Proof.
  cbv zeta.
  set (s := Server.NewServer (mkConfig [] "server" 1 1 4 4)).
  assert (H1 : Engine.status (Server.core s) = true) by reflexivity.
  assert (H2 : Server.lnClosed s = false) by reflexivity.
  split; [exact H1|]; split; [exact H2|].
  exact (proj2 (proj1 (acceptConn_hands_over s [3%nat; 4%nat] H1) H2)
               [Some 5%nat]).
Defined.

(* ================================================================== *)
(** * Offering to a closed queue *)

Lemma closeQueue_keeps c q c' :
  Engine.closeQueue c q = Some c' ->
  closed (Engine.queue c' q) = true
  /\ Engine.connections c' = Engine.connections c
  /\ Engine.net c' = Engine.net c
  /\ (forall q', closed (Engine.queue c q') = true ->
                 closed (Engine.queue c' q') = true).
Proof.
  unfold Engine.closeQueue, chan.close.
  destruct (closed (Engine.queue c q)) eqn:Eq; [discriminate|].
  intros [= <-]; destruct c as [i d st p q1 q2 n tr].
  destruct q; cbn in *; repeat split; intros [|] H; cbn in *; congruence.
Qed.

(** X19.  A send after the queue was closed.  The producers do not look
    at whether their queue is closed: on an engine whose outbound queue is
    closed, a TUN read that returns a datagram makes the reader's pass end
    in a run-time panic (send on closed channel), not in a drop; on an
    engine whose inbound queue is closed, a frame arriving on a carrier
    does the same to that carrier's read loop.  [Close] closes both queues
    before it closes the carriers, which at that point are all still in
    the pool with their connections open. *)
Theorem offer_on_closed_queue_panics (c : Engine.t) :
  (closed (Engine.deviceToRemoteChannel c) = true ->
   forall size stored,
     0 < size <= 65533 ->
     Engine.handleDevicePacket_body c (TunData size stored) = (Panic, c))
  /\ (closed (Engine.remoteToDeviceChannel c) = true ->
      forall conn p tail,
        1 <= Slice.len p <= 65535 ->
        bytes_of conn = frame p ++ tail ->
        fst (Engine.readLoop c conn) = Panicked
        /\ fst (snd (Engine.readLoop c conn)) = c)
  /\ (forall c1 c2,
        Engine.closeQueue c DeviceToRemote = Some c1 ->
        Engine.closeQueue c1 RemoteToDevice = Some c2 ->
        closed (Engine.deviceToRemoteChannel c2) = true
        /\ closed (Engine.remoteToDeviceChannel c2) = true
        /\ Engine.connections c2 = Engine.connections c
        /\ closedConns (Engine.net c2) = closedConns (Engine.net c)).
Proof.
  split; [|split].
  - intros Hc size stored [Hpos Hfit].
    destruct (handleDevicePacket_body_positive c size stored Hpos)
      as [_ Hok].
    destruct (Hok Hfit) as (fr & E & _); rewrite E.
    apply publish_closed; exact Hc.
  - intros Hc conn p tail Hp Hb.
    destruct (readFrame_of_frame p tail conn Hp Hb) as (conn' & E & _).
    pose proof (readLoop_body_closed_queue c conn p conn' E Hc) as Eb.
    unfold Engine.readLoop; cbn [repeat loop]; rewrite Eb.
    split; reflexivity.
  - intros c1 c2 E1 E2.
    destruct (closeQueue_keeps _ _ _ E1) as (Hq1 & Hp1 & Hn1 & _).
    destruct (closeQueue_keeps _ _ _ E2) as (Hq2 & Hp2 & Hn2 & Hk).
    split; [exact (Hk DeviceToRemote Hq1)|]; split; [exact Hq2|].
    rewrite Hp2, Hp1, Hn2, Hn1; split; reflexivity.
Qed.

Lemma offer_on_closed_queue_panics_witness :
  let c := Engine.with_pool (newEngine (mkConfig [] "server" 1 1 4 4))
                            [mkConnection 7%nat [x01]] (mkNet [] []) in
  let conn := mkStream [[x00; x01]; [x45]] EOF in
  exists c1 c2,
    Engine.closeQueue c DeviceToRemote = Some c1
    /\ Engine.closeQueue c1 RemoteToDevice = Some c2
    /\ Engine.connections c2 = [mkConnection 7%nat [x01]]
    /\ closedConns (Engine.net c2) = []
    /\ Engine.handleDevicePacket_body c2 (TunData 1 [x45]) = (Panic, c2)
    /\ fst (Engine.readLoop c2 conn) = Panicked.
Proof.
  cbv zeta.
  set (c := Engine.with_pool (newEngine (mkConfig [] "server" 1 1 4 4))
                             [mkConnection 7%nat [x01]] (mkNet [] [])).
  set (conn := mkStream [[x00; x01]; [x45]] EOF).
  destruct (Engine.closeQueue c DeviceToRemote) as [c1|] eqn:E1;
    [|discriminate E1].
  destruct (Engine.closeQueue c1 RemoteToDevice) as [c2|] eqn:E2;
    [|vm_compute in E1; injection E1 as <-; discriminate E2].
  exists c1, c2; split; [reflexivity|]; split; [exact E2|].
  destruct (offer_on_closed_queue_panics c2) as (P1 & P2 & _).
  destruct (offer_on_closed_queue_panics c) as (_ & _ & P3).
  destruct (P3 _ _ E1 E2) as (Q1 & Q2 & Q3 & Q4).
  split; [exact Q3|]; split; [exact Q4|]; split.
  - apply (P1 Q1); lia.
  - apply (proj1 (P2 Q2 conn [x45] [] ltac:(unfold Slice.len; cbn; lia)
                     eq_refl)).
Defined.
